(** * Skills Music API V2: the catalog builder and the HTTP handlers

    A shallow embedding of [src/index.ts].  The repository's second variant
    of the server, the one without the API explorer, has the same
    [generateApi] and the same three handlers, so one model covers both.

    Modelling conventions.
    - JavaScript strings are [string] (sequences of 8-bit characters); case
      mapping acts on the ASCII letters, every other character is its own
      upper and lower case.
    - The filesystem is part of an explicit [World]: directories map to their
      listing in enumeration order, regular files map to their contents, both
      under their canonical path ([./a/b]).  A path given to the runtime is
      resolved as a POSIX system does, segment by segment, [..] included;
      there are no symbolic links.
    - [async] functions are computations in the [Async] monad: a state
      monad over [World] whose results are JavaScript completions (a value
      or a thrown error).  [await] is the monad's bind; the model is
      sequential, as one request is. *)

From Stdlib Require Import ZArith Ascii.
From Stdlib Require DecimalString.
From stdpp Require Import gmap strings list fin_maps.

Local Open Scope Z_scope.

(* ===================================================================== *)
(** ** JavaScript string methods used by the source *)
(* ===================================================================== *)

Module Js.

(** Characters as code units. *)
Definition code (c : ascii) : N := N_of_ascii c.

Definition upper_char (c : ascii) : ascii :=
  if ((97 <=? code c) && (code c <=? 122))%N
  then ascii_of_N (code c - 32) else c.

Definition lower_char (c : ascii) : ascii :=
  if ((65 <=? code c) && (code c <=? 90))%N
  then ascii_of_N (code c + 32) else c.

(** [s.toUpperCase()], [s.toLowerCase()].  On strings of ASCII characters
    these are the methods of the language; a character outside ASCII is left
    as it is, where the language may change it (it writes SS for a sharp s). *)
Fixpoint toUpperCase (s : string) : string :=
  match s with
  | EmptyString => EmptyString
  | String c s' => String (upper_char c) (toUpperCase s')
  end.

Fixpoint toLowerCase (s : string) : string :=
  match s with
  | EmptyString => EmptyString
  | String c s' => String (lower_char c) (toLowerCase s')
  end.

(** [s.startsWith(p)] *)
Fixpoint startsWith (s p : string) {struct p} : bool :=
  match p, s with
  | EmptyString, _ => true
  | String _ _, EmptyString => false
  | String a p', String b s' => Ascii.eqb a b && startsWith s' p'
  end.

(** The characters of [s] from index [n] on: [s.slice(n)] for [n >= 0]. *)
Fixpoint slice (s : string) (n : nat) {struct n} : string :=
  match n, s with
  | O, _ => s
  | S _, EmptyString => EmptyString
  | S n', String _ s' => slice s' n'
  end.

(** [s.charAt(0)]: the first character as a string, or the empty string. *)
Definition charAt0 (s : string) : string :=
  match s with
  | EmptyString => EmptyString
  | String c _ => String c EmptyString
  end.

(** [s.endsWith(suffix)] *)
Definition endsWith (s suffix : string) : bool :=
  (String.length suffix <=? String.length s)%nat &&
  String.eqb (slice s (String.length s - String.length suffix)) suffix.

(** [s.includes(search)] *)
Fixpoint includes (s search : string) : bool :=
  startsWith s search ||
  match s with
  | EmptyString => false
  | String _ s' => includes s' search
  end.

(** [s.replace(pat, rep)] with a string pattern: only the FIRST occurrence
    of [pat] is replaced.  (The replacement strings of the source contain
    no [$], so no replacement pattern is expanded.) *)
Fixpoint replace (s pat rep : string) : string :=
  if startsWith s pat then rep +:+ slice s (String.length pat)
  else match s with
       | EmptyString => EmptyString
       | String c s' => String c (replace s' pat rep)
       end.

(** [s.split(sep)] for a one-character separator (the source only splits
    on ["\n"], [" "] and ["-"]).  [split_pieces] returns the first piece and
    the remaining ones. *)
Fixpoint split_pieces (s : string) (sep : ascii) : string * list string :=
  match s with
  | EmptyString => (EmptyString, [])
  | String c s' =>
      let '(w, ws) := split_pieces s' sep in
      if Ascii.eqb c sep then (EmptyString, w :: ws) else (String c w, ws)
  end.

Definition split (s : string) (sep : ascii) : list string :=
  let '(w, ws) := split_pieces s sep in w :: ws.

(** [words.join(sep)] *)
Fixpoint join (words : list string) (sep : string) : string :=
  match words with
  | [] => EmptyString
  | [w] => w
  | w :: ws => w +:+ sep +:+ join ws sep
  end.

End Js.

(** The line feed character, ["\n"]. *)
Definition LF : ascii := ascii_of_N 10.

(* ===================================================================== *)
(** ** The world: filesystem and console *)
(* ===================================================================== *)

(** Errors thrown by the runtime. *)
Inductive Error :=
| ENOENT (path : string)        (* no such file or directory *)
| TypeError (msg : string).     (* method call on [undefined] *)

Record World := {
  dirs : gmap string (list string);   (* canonical path of a directory to its listing, in enumeration order *)
  files : gmap string string;         (* canonical path of a regular file to its contents *)
  console : list Error                (* what [console.log] has printed, oldest first *)
}.

(** Resolution of a relative path, as the system calls behind [Bun.file] do
    it: the path is walked from the working directory, one segment at a
    time.  (The paths of the source all begin with [./].) *)
Module Path.

(** The canonical path of the place reached; [cur] holds its segments, the
    last one first. *)
Definition of_segments (cur : list string) : string :=
  Js.join ("." :: rev cur) "/".

(** One segment further.  An empty segment and [.] stay; [..] goes back to
    the parent, which takes the place left to be a directory, and goes above
    the working directory when there is nothing to go back to; a name goes
    down. *)
Definition step (is_dir : string -> bool) (cur : list string) (seg : string)
    : option (list string) :=
  if String.eqb seg "" || String.eqb seg "." then Some cur
  else if String.eqb seg ".." then
    match cur with
    | [] => Some [".."]
    | top :: below =>
        if String.eqb top ".." then Some (".." :: cur)
        else if is_dir (of_segments cur) then Some below
        else None
    end
  else Some (seg :: cur).

Fixpoint walk (is_dir : string -> bool) (cur : list string) (segs : list string)
    : option (list string) :=
  match segs with
  | [] => Some cur
  | seg :: rest =>
      match step is_dir cur seg with
      | Some cur' => walk is_dir cur' rest
      | None => None
      end
  end.

(** The canonical path of the regular file that [path] may name: none when
    the walk fails, or when the path ends in [/], [.] or [..] and so can only
    name a directory. *)
Definition file (is_dir : string -> bool) (path : string) : option string :=
  let segs := Js.split path "/"%char in
  match last segs with
  | Some name =>
      if String.eqb name "" || String.eqb name "." || String.eqb name ".." then None
      else of_segments <$> walk is_dir [] segs
  | None => None
  end.

End Path.

(** [path] is a directory of [w]. *)
Definition is_dir (w : World) (path : string) : bool :=
  match dirs w !! path with
  | Some _ => true
  | None => false
  end.

(** The contents of the regular file that [path] names in [w], if any. *)
Definition file_at (w : World) (path : string) : option string :=
  match Path.file (is_dir w) path with
  | Some p => files w !! p
  | None => None
  end.

(** JavaScript completions. *)
Inductive Completion (A : Type) :=
| Normal (a : A)
| Throw (e : Error).
Arguments Normal {A} a.
Arguments Throw {A} e.

Definition Async (A : Type) : Type := World -> Completion A * World.

Definition ret {A} (a : A) : Async A := fun w => (Normal a, w).

Definition throw {A} (e : Error) : Async A := fun w => (Throw e, w).

Definition bind {A B} (m : Async A) (k : A -> Async B) : Async B :=
  fun w => match m w with
           | (Normal a, w') => k a w'
           | (Throw e, w') => (Throw e, w')
           end.

Notation "x <- 'await' m ;; k" := (bind m (fun x => k))
  (at level 100, m at next level, right associativity).

(** [try { body } catch (error) { handler }] *)
Definition try_catch {A} (body : Async A) (handler : Error -> Async A) : Async A :=
  fun w => match body w with
           | (Normal a, w') => (Normal a, w')
           | (Throw e, w') => handler e w'
           end.

(** [readdir(path)] from [fs/promises]: rejects when the directory is
    missing.  (Its one argument in the source is [dirPath], a canonical
    path.) *)
Definition readdir (path : string) : Async (list string) :=
  fun w => match dirs w !! path with
           | Some listing => (Normal listing, w)
           | None => (Throw (ENOENT path), w)
           end.

(** [Bun.file(path).text()]: rejects when the file is missing. *)
Definition file_text (path : string) : Async string :=
  fun w => match file_at w path with
           | Some text => (Normal text, w)
           | None => (Throw (ENOENT path), w)
           end.

(** [Bun.file(path).exists()]: true of a regular file, false of a directory
    and of a path that names nothing. *)
Definition file_exists (path : string) : Async bool :=
  fun w => (Normal (match file_at w path with Some _ => true | None => false end), w).

(** [Bun.file(path).stream()]: the bytes of the file. *)
Definition file_stream (path : string) : Async string := file_text path.

(** [console.log(error)] *)
Definition console_log (e : Error) : Async unit :=
  fun w => (Normal tt, {| dirs := dirs w; files := files w; console := console w ++ [e] |}).

(* ===================================================================== *)
(** ** The catalog builder, [generateApi] *)
(* ===================================================================== *)

Record Sound := {
  id : Z;
  name : string;
  description : string;
  tags : list string;
  audio : string;
  cover : string
}.

Definition dirPath : string := "./assets/music".

(** [word.charAt(0).toUpperCase() + word.slice(1)] *)
Definition capitalize (word : string) : string :=
  Js.toUpperCase (Js.charAt0 word) +:+ Js.slice word 1.

(** The [title] of a file name (lines 25-30). *)
Definition title (fileName : string) : string :=
  Js.join
    (map capitalize
       (Js.split (Js.replace (Js.replace fileName ".mp3" "") "_" " ") " "%char))
    " ".

(** The path of the sidecar description file (lines 31-33). *)
Definition descriptionPath (fileName : string) : string :=
  "./assets/description/" +:+ Js.replace fileName ".mp3" ".txt".

(** [lines[i].split("-")]: a [TypeError] when [lines[i]] is [undefined].
    (The message is the beginning of the engine's, which goes on with the
    expression evaluated.) *)
Definition split_of (line : option string) (sep : ascii) : Async (list string) :=
  match line with
  | Some l => ret (Js.split l sep)
  | None => throw (TypeError "undefined is not an object")
  end.

(** The body of the [for ... of] loop, iterated over the listing; [sounds] is
    the array being filled.  [description.split("\n")[0]] is never
    [undefined], a split has at least one piece. *)
Fixpoint for_of (listing : list string) (sounds : list Sound) : Async (list Sound) :=
  match listing with
  | [] => ret sounds
  | fileName :: rest =>
      if Js.endsWith fileName ".mp3" then
        text <- await file_text (descriptionPath fileName) ;;
        tgs <- await split_of (Js.split text LF !! 1%nat) "-"%char ;;
        for_of rest
          (sounds ++ [ {| id := Z.of_nat (length sounds) + 1;
                          name := title fileName;
                          description := default "" (Js.split text LF !! 0%nat);
                          tags := tgs;
                          audio := "/audio/" +:+ fileName;
                          cover := "/cover/" +:+ Js.replace fileName ".mp3" ".jpg" |} ])
      else for_of rest sounds
  end.

Definition generateApi : Async (list Sound) :=
  try_catch
    (listing <- await readdir dirPath ;; for_of listing [])
    (fun error => _ <- await console_log error ;; ret []).

(* ===================================================================== *)
(** ** The HTTP handlers *)
(* ===================================================================== *)

Inductive Json :=
| JSounds (sounds : list Sound)
| JError (error : string).

Inductive Body :=
| JsonBody (j : Json)
| StreamBody (bytes : string).

(** [headers] holds the headers the handler sets itself. *)
Record Response := {
  status : Z;
  headers : list (string * string);
  body : Body
}.

(** [c.json(object, status)] *)
Definition c_json (j : Json) (st : Z) : Response :=
  {| status := st; headers := []; body := JsonBody j |}.

(** [c.body(stream, { headers })]: the status defaults to 200. *)
Definition c_body (bytes : string) (hs : list (string * string)) : Response :=
  {| status := 200; headers := hs; body := StreamBody bytes |}.

(** The predicate of [sounds.filter] (lines 59-63). *)
Definition matches (search : string) (sound : Sound) : bool :=
  Js.includes (Js.toLowerCase (name sound)) (Js.toLowerCase search) ||
  existsb (fun tag => Js.includes (Js.toLowerCase tag) (Js.toLowerCase search))
          (tags sound).

(** The values [generateApi] can resolve to, as far as [!= null] tells them
    apart.  Both [return]s of [generateApi] give an array. *)
Inductive JsValue :=
| JsNull
| JsUndefined
| JsArray (sounds : list Sound).

(** [v != null]: loose inequality, false of [null] and [undefined] only. *)
Definition neq_null (v : JsValue) : bool :=
  match v with
  | JsNull | JsUndefined => false
  | JsArray _ => true
  end.

(** [if (search)]: the header value when it is truthy, that is present and
    not the empty string. *)
Definition truthy (search : option string) : option string :=
  match search with
  | Some s => if String.eqb s "" then None else Some s
  | None => None
  end.

(** What [GET /sounds] answers once the catalog is built (lines 55-73);
    [search] is [c.req.header("search")]. *)
Definition soundsResponse (search : option string) (sounds : list Sound) : Response :=
  match truthy search with
  | Some search =>
      let filteredSounds := List.filter (matches search) sounds in
      c_json (if (0 <? Z.of_nat (length filteredSounds))
              then JSounds filteredSounds else JError "No sounds found")
             (if (0 <? Z.of_nat (length filteredSounds)) then 200 else 404)
  | None =>
      c_json (if neq_null (JsArray sounds) then JSounds sounds else JError "No sounds found")
             (if neq_null (JsArray sounds) then 200 else 404)
  end.

Definition getSounds (search : option string) : Async Response :=
  sounds <- await generateApi ;;
  ret (soundsResponse search sounds).

(** [GET /audio/:fileName] *)
Definition getAudio (fileName : string) : Async Response :=
  let filePath := "./assets/music/" +:+ fileName in
  present <- await file_exists filePath ;;
  if present then
    bytes <- await file_stream filePath ;;
    ret (c_body bytes [("Content-Type", "audio/mpeg")])
  else ret (c_json (JError "Audio file not found") 404).

(** [GET /cover/:fileName] *)
Definition getCover (fileName : string) : Async Response :=
  let filePath := "./assets/cover/" +:+ fileName in
  present <- await file_exists filePath ;;
  if present then
    bytes <- await file_stream filePath ;;
    ret (c_body bytes [("Content-Type", "image/jpeg")])
  else ret (c_json (JError "Cover image not found") 404).

(* ===================================================================== *)
(** ** The API document, [GET /doc] *)
(* ===================================================================== *)

Module Doc.

(** JSON values, an object being its properties in order. *)
#[warnings="-register-all"]
Inductive Value :=
| Str (s : string)
| Num (n : Z)
| Bool (b : bool)
| Arr (items : list Value)
| Obj (fields : list (string * Value)).

(** [v[key]] *)
Definition get (key : string) (v : Value) : option Value :=
  match v with
  | Obj fields => snd <$> List.find (fun kv => String.eqb (fst kv) key) fields
  | _ => None
  end.

(** [v[k1][k2]...] *)
Fixpoint at_path (path : list string) (v : Value) : option Value :=
  match path with
  | [] => Some v
  | key :: rest =>
      match get key v with
      | Some v' => at_path rest v'
      | None => None
      end
  end.

(** [Object.keys(v)] *)
Definition keys (v : Value) : list string :=
  match v with
  | Obj fields => map fst fields
  | _ => []
  end.

End Doc.

Import Doc (Str, Num, Bool, Arr, Obj).

(** The literal [openApiSpec] (lines 114-243). *)
Definition openApiSpec : Doc.Value :=
  Obj [
    ("openapi", Str "3.0.0");
    ("info", Obj [ ("title", Str "Skills Music API V2"); ("version", Str "1.0.0") ]);
    ("paths", Obj [
      ("/sounds", Obj [
        ("get", Obj [
          ("summary", Str "Retrieve a list of sounds");
          ("parameters", Arr [
            Obj [ ("in", Str "header"); ("name", Str "search");
                  ("schema", Obj [ ("type", Str "string") ]) ] ]);
          ("responses", Obj [
            ("200", Obj [
              ("description", Str "A list of sounds");
              ("content", Obj [
                ("application/json", Obj [
                  ("schema", Obj [
                    ("type", Str "array");
                    ("items", Obj [ ("$ref", Str "#/components/schemas/Sound") ]) ]) ]) ]) ]);
            ("404", Obj [
              ("description", Str "No sounds found");
              ("content", Obj [
                ("application/json", Obj [
                  ("schema", Obj [
                    ("type", Str "object");
                    ("properties", Obj [
                      ("error", Obj [ ("type", Str "string") ]) ]) ]) ]) ]) ]) ]) ]) ]);
      ("/audio/{fileName}", Obj [
        ("get", Obj [
          ("summary", Str "Retrieve an audio file");
          ("parameters", Arr [
            Obj [ ("in", Str "path"); ("name", Str "fileName"); ("required", Bool true);
                  ("schema", Obj [ ("type", Str "string") ]) ] ]);
          ("responses", Obj [
            ("200", Obj [
              ("description", Str "The audio file");
              ("content", Obj [
                ("audio/mpeg", Obj [
                  ("schema", Obj [ ("type", Str "string"); ("format", Str "binary") ]) ]) ]) ]);
            ("404", Obj [ ("description", Str "Audio file not found") ]) ]) ]) ]);
      ("/cover/{fileName}", Obj [
        ("get", Obj [
          ("summary", Str "Retrieve a cover image");
          ("parameters", Arr [
            Obj [ ("in", Str "path"); ("name", Str "fileName"); ("required", Bool true);
                  ("schema", Obj [ ("type", Str "string") ]) ] ]);
          ("responses", Obj [
            ("200", Obj [
              ("description", Str "The cover image");
              ("content", Obj [
                ("image/jpeg", Obj [
                  ("schema", Obj [ ("type", Str "string"); ("format", Str "binary") ]) ]) ]) ]);
            ("404", Obj [ ("description", Str "Cover image not found") ]) ]) ]) ]) ]);
    ("components", Obj [
      ("schemas", Obj [
        ("Sound", Obj [
          ("type", Str "object");
          ("properties", Obj [
            ("id", Obj [ ("type", Str "integer") ]);
            ("name", Obj [ ("type", Str "string") ]);
            ("description", Obj [ ("type", Str "string") ]);
            ("tags", Obj [ ("type", Str "array"); ("items", Obj [ ("type", Str "string") ]) ]);
            ("audio", Obj [ ("type", Str "string") ]);
            ("cover", Obj [ ("type", Str "string") ]) ]) ]) ]) ]) ].

(** [GET /doc]: [c.json(openApiSpec)], the document with the default status. *)
Definition getDoc : Doc.Value * Z := (openApiSpec, 200).

(** What [c.json] writes for an entry: the properties of the object literal
    of lines 36-43, in its order. *)
Definition soundJson (s : Sound) : Doc.Value :=
  Obj [ ("id", Num (id s));
        ("name", Str (name s));
        ("description", Str (description s));
        ("tags", Arr (map Str (tags s)));
        ("audio", Str (audio s));
        ("cover", Str (cover s)) ].

(** What [c.json] writes for the two kinds of body. *)
Definition jsonValue (j : Json) : Doc.Value :=
  match j with
  | JSounds sounds => Arr (map soundJson sounds)
  | JError error => Obj [ ("error", Str error) ]
  end.

(* ===================================================================== *)
(** ** Vocabulary of the specification *)
(* ===================================================================== *)

(** The audio files of a listing, in listing order. *)
Definition is_mp3 (fileName : string) : bool := Js.endsWith fileName ".mp3".

Definition audioFiles (listing : list string) : list string :=
  List.filter is_mp3 listing.

(** The lines of a sidecar text. *)
Definition lines (text : string) : list string := Js.split text LF.

(** The sidecar of [fileName] is missing, or has no second line. *)
Definition sidecar_malformed (w : World) (fileName : string) : Prop :=
  file_at w (descriptionPath fileName) = None \/
  exists text, file_at w (descriptionPath fileName) = Some text /\ lines text !! 1%nat = None.

(** The sidecar of [fileName] holds [text], whose second line is [line]. *)
Definition sidecar_is (w : World) (fileName text line : string) : Prop :=
  file_at w (descriptionPath fileName) = Some text /\ lines text !! 1%nat = Some line.

(** The entry pushed for [fileName] when [n] entries were built before it. *)
Definition entry (n : nat) (fileName text line : string) : Sound :=
  {| id := Z.of_nat n + 1;
     name := title fileName;
     description := default "" (lines text !! 0%nat);
     tags := Js.split line "-"%char;
     audio := "/audio/" +:+ fileName;
     cover := "/cover/" +:+ Js.replace fileName ".mp3" ".jpg" |}.

(** [Built w n fs es]: [es] are the entries of the audio files [fs], in
    order, the first of them being entry number [n] (counted from 0). *)
Inductive Built (w : World) : nat -> list string -> list Sound -> Prop :=
| Built_nil n : Built w n [] []
| Built_cons n fileName text line fs es :
    sidecar_is w fileName text line ->
    Built w (S n) fs es ->
    Built w n (fileName :: fs) (entry n fileName text line :: es).

(** The world after [console.log(e)]. *)
Definition logged (e : Error) (w : World) : World :=
  {| dirs := dirs w; files := files w; console := console w ++ [e] |}.

(** [s] contains [term] as a substring, case ignored. *)
Definition contains_ci (s term : string) : Prop :=
  exists pre post, Js.toLowerCase s = pre +:+ Js.toLowerCase term +:+ post.

(** The matching rule: the name, or some tag, contains the term. *)
Definition Matches (term : string) (sound : Sound) : Prop :=
  contains_ci (name sound) term \/
  exists tag, tag ∈ tags sound /\ contains_ci tag term.

(** What a download route answers, from the file found at its path. *)
Definition download (found : option string) (contentType notFound : string) : Response :=
  match found with
  | Some bytes => c_body bytes [("Content-Type", contentType)]
  | None => c_json (JError notFound) 404
  end.

(** A string of ASCII characters. *)
Fixpoint ascii_only (s : string) : bool :=
  match s with
  | EmptyString => true
  | String c s' => (Js.code c <? 128)%N && ascii_only s'
  end.

(** A plain file name: one segment, neither empty nor [.] nor [..]. *)
Definition plain_name (n : string) : bool :=
  negb (Js.includes n "/") && negb (String.eqb n "") &&
  negb (String.eqb n ".") && negb (String.eqb n "..").

(** The file that the directory [dir] holds under the name [n]: a directory
    holds its files under plain names. *)
Definition in_directory (w : World) (dir n : string) : option string :=
  if plain_name n then files w !! (dir +:+ "/" +:+ n) else None.

(** The error a malformed sidecar of [fileName] makes the loop throw: the
    rejected read when the file is missing, the [TypeError] of
    [undefined.split] when it has no second line. *)
Definition sidecar_error (w : World) (fileName : string) : Error :=
  match file_at w (descriptionPath fileName) with
  | None => ENOENT (descriptionPath fileName)
  | Some _ => TypeError "undefined is not an object"
  end.

(** The JSON type of a value, in the words of the document. *)
Definition json_type (v : Doc.Value) : string :=
  match v with
  | Str _ => "string"
  | Num _ => "integer"
  | Bool _ => "boolean"
  | Arr _ => "array"
  | Obj _ => "object"
  end.

(** The key of a status in a [responses] object: its decimal writing. *)
Definition status_key (st : Z) : string :=
  DecimalString.NilZero.string_of_int (Z.to_int st).

(** The document's entry for the status of [r] under [route]. *)
Definition documented_response (route : string) (r : Response) : option Doc.Value :=
  Doc.at_path ["paths"; route; "get"; "responses"; status_key (status r)] openApiSpec.

(** [r] is an answer the document describes for [route]: its status is
    listed; an error body carries the listed description as its text; a list
    of sounds goes with a listed JSON array of [Sound]; streamed bytes go
    with a [Content-Type] that is listed as content. *)
Definition documented (route : string) (r : Response) : Prop :=
  exists resp,
    documented_response route r = Some resp /\
    match body r with
    | JsonBody (JError msg) => Doc.get "description" resp = Some (Str msg)
    | JsonBody (JSounds _) =>
        Doc.at_path ["content"; "application/json"; "schema"] resp =
        Some (Obj [ ("type", Str "array");
                    ("items", Obj [ ("$ref", Str "#/components/schemas/Sound") ]) ])
    | StreamBody _ =>
        exists ct, headers r = [("Content-Type", ct)] /\
                   is_Some (Doc.at_path ["content"; ct] resp)
    end.

(** The object [v] fits the documented properties [props]: it has exactly
    those properties, in that order, each of the documented type, and the
    items of an array are of the documented item type. *)
Definition fits (props v : Doc.Value) : Prop :=
  Doc.keys v = Doc.keys props /\
  forall key x, Doc.get key v = Some x ->
    Doc.at_path [key; "type"] props = Some (Str (json_type x)) /\
    forall items item, x = Arr items -> item ∈ items ->
      Doc.at_path [key; "items"; "type"] props = Some (Str (json_type item)).

(* ===================================================================== *)
(** ** Sample worlds *)
(* ===================================================================== *)

(** The sidecar text ["Desc\nA-B-C"]. *)
Definition sidecar_text : string := "Desc" +:+ String LF "A-B-C".

(** The music directory exists and is empty. *)
Definition world_empty_dir : World :=
  {| dirs := {[ dirPath := [] ]}; files := ∅; console := [] |}.

(** There is no music directory at all. *)
Definition world_no_dir : World :=
  {| dirs := ∅; files := ∅; console := [] |}.

(** Two audio files with their sidecars, and a stray text file between them. *)
Definition world_demo : World :=
  {| dirs := {[ dirPath := ["cool_beat.mp3"; "notes.txt"; "a_b_c.mp3"] ]};
     files := {[ "./assets/description/cool_beat.txt" := sidecar_text;
                 "./assets/description/a_b_c.txt" := "Only one line" +:+ String LF "";
                 "./assets/music/cool_beat.mp3" := "ID3" ]};
     console := [] |}.

(** The second audio file has no sidecar. *)
Definition world_lost_sidecar : World :=
  {| dirs := {[ dirPath := ["cool_beat.mp3"; "lost.mp3"] ]};
     files := {[ "./assets/description/cool_beat.txt" := sidecar_text ]};
     console := [] |}.

(** The sidecar of the only audio file stops after its first line. *)
Definition world_short_sidecar : World :=
  {| dirs := {[ dirPath := ["cool_beat.mp3"] ]};
     files := {[ "./assets/description/cool_beat.txt" := "Desc" ]};
     console := [] |}.

(** One audio file with its sidecar, its bytes and a stray cover, every
    directory on the way being there. *)
Definition world_shelf : World :=
  {| dirs := {[ "./assets" := ["music"; "description"; "cover"];
                dirPath := ["readme.md"; "cool_beat.mp3"];
                "./assets/description" := ["cool_beat.txt"];
                "./assets/cover" := ["other.jpg"] ]};
     files := {[ "./assets/description/cool_beat.txt" := sidecar_text +:+ String LF "";
                 "./assets/music/readme.md" := "notes";
                 "./assets/music/cool_beat.mp3" := "ID3";
                 "./assets/cover/other.jpg" := "JFIF" ]};
     console := [] |}.

(** The catalog built in [world_demo]. *)
Definition demo_catalog : list Sound :=
  [ {| id := 1; name := "Cool Beat"; description := "Desc"; tags := ["A"; "B"; "C"];
       audio := "/audio/cool_beat.mp3"; cover := "/cover/cool_beat.jpg" |};
    {| id := 2; name := "A B_c"; description := "Only one line"; tags := [""];
       audio := "/audio/a_b_c.mp3"; cover := "/cover/a_b_c.jpg" |} ].

(* ===================================================================== *)
(** ** The string methods on examples *)
(* ===================================================================== *)

Example split_lines : Js.split (String "D" (String LF "A-B")) LF = ["D"; "A-B"].
Proof. reflexivity. Qed.
Example split_tags : Js.split "A-B-C" "-"%char = ["A"; "B"; "C"].
Proof. reflexivity. Qed.
Example replace_first : Js.replace "a_b_c" "_" " " = "a b_c".
Proof. reflexivity. Qed.
Example ends_mp3 : Js.endsWith "x.mp3" ".mp3" = true /\ Js.endsWith "mp3" ".mp3" = false.
Proof. split; reflexivity. Qed.

(* ===================================================================== *)
(** ** Facts about the string methods *)
(* ===================================================================== *)

Section StringFacts.

Lemma app_String (c : ascii) (s t : string) : String c s +:+ t = String c (s +:+ t).
Proof. reflexivity. Qed.

Lemma app_empty_l (s : string) : "" +:+ s = s.
Proof. reflexivity. Qed.

Lemma ascii_eqb_true (a b : ascii) : Ascii.eqb a b = true <-> a = b.
Proof. apply Ascii.eqb_eq. Qed.

(** [startsWith] decides the prefix relation. *)
Lemma startsWith_spec (s p : string) :
  Js.startsWith s p = true <-> exists t, s = p +:+ t.
Proof.
  revert s. induction p as [|a p IH]; intros s; simpl.
  - split; [intros _; by exists s | done].
  - destruct s as [|b s].
    + split; [done | intros [t Ht]; discriminate Ht].
    + rewrite andb_true_iff, ascii_eqb_true, IH. split.
      * intros [-> [t ->]]. by exists t.
      * intros [t Ht]. rewrite app_String in Ht. injection Ht as -> ->. eauto.
Qed.

Lemma includes_unfold (s search : string) :
  Js.includes s search =
  Js.startsWith s search ||
  match s with EmptyString => false | String _ s' => Js.includes s' search end.
Proof. by destruct s. Qed.

(** [includes] decides the substring relation. *)
Lemma includes_spec (s search : string) :
  Js.includes s search = true <-> exists pre post, s = pre +:+ search +:+ post.
Proof.
  induction s as [|c s IH]; rewrite includes_unfold, orb_true_iff, startsWith_spec.
  - split.
    + intros [[t Ht]|?]; [|done]. by exists "", t.
    + intros (pre & post & H). left. destruct pre; [|discriminate H].
      by exists post.
  - rewrite IH. split.
    + intros [[t Ht]|(pre & post & ->)]; [by exists "", t|].
      by exists (String c pre), post.
    + intros ([|c' pre] & post & H).
      * left. by exists post.
      * right. rewrite app_String in H. injection H as -> ->. eauto.
Qed.

(** A split always has a first piece. *)
Lemma split_cons (s : string) (sep : ascii) :
  exists w ws, Js.split s sep = w :: ws.
Proof. unfold Js.split. destruct (Js.split_pieces s sep) as [w ws]. eauto. Qed.

Lemma split_not_nil (s : string) (sep : ascii) : Js.split s sep ≠ [].
Proof. destruct (split_cons s sep) as (w & ws & ->). done. Qed.

Lemma split_String (c : ascii) (s : string) (sep : ascii) :
  Js.split (String c s) sep =
  if Ascii.eqb c sep then "" :: Js.split s sep
  else match Js.split s sep with
       | w :: ws => String c w :: ws
       | [] => []
       end.
Proof.
  unfold Js.split. simpl. destruct (Js.split_pieces s sep) as [w ws].
  by destruct (Ascii.eqb c sep).
Qed.

(** Without the separator in it, a string is its own single piece. *)
Lemma split_no_sep (s : string) (sep : ascii) :
  Js.includes s (String sep "") = false -> Js.split s sep = [s].
Proof.
  induction s as [|c s IH]; [done|].
  rewrite includes_unfold, orb_false_iff. simpl. intros [Hc Hs].
  rewrite split_String. rewrite andb_true_r in Hc.
  rewrite Ascii.eqb_sym, Hc, (IH Hs). done.
Qed.

(** Splitting at the first separator. *)
Lemma split_app (p q : string) (sep : ascii) :
  Js.includes p (String sep "") = false ->
  Js.split (p +:+ String sep q) sep = p :: Js.split q sep.
Proof.
  induction p as [|a p IH]; intros Hp.
  - rewrite app_empty_l, split_String. by rewrite Ascii.eqb_refl.
  - rewrite includes_unfold, orb_false_iff in Hp. destruct Hp as [Ha Hp].
    simpl in Ha. rewrite andb_true_r, Ascii.eqb_sym in Ha.
    rewrite app_String, split_String, Ha, (IH Hp). done.
Qed.

(** [replace] with a one-character pattern rewrites its first occurrence
    and leaves everything after it alone. *)
Lemma replace_first_char (p q : string) (c : ascii) (rep : string) :
  Js.includes p (String c "") = false ->
  Js.replace (p +:+ String c q) (String c "") rep = p +:+ rep +:+ q.
Proof.
  induction p as [|a p IH]; intros Hp.
  - rewrite !app_empty_l. simpl. by rewrite Ascii.eqb_refl.
  - rewrite includes_unfold, orb_false_iff in Hp. destruct Hp as [Ha Hp].
    simpl in Ha. rewrite andb_true_r in Ha.
    rewrite !app_String. simpl. rewrite Ha. simpl. by rewrite (IH Hp).
Qed.

End StringFacts.

(* ===================================================================== *)
(** ** Facts about the builder *)
(* ===================================================================== *)

Section BuilderFacts.

Variable w : World.

Lemma sidecar_cases (fileName : string) :
  sidecar_malformed w fileName \/ exists text line, sidecar_is w fileName text line.
Proof.
  unfold sidecar_malformed, sidecar_is.
  destruct (file_at w (descriptionPath fileName)) as [text|] eqn:Hf; [|by left; left].
  destruct (lines text !! 1%nat) as [line|] eqn:Hl.
  - right. by exists text, line.
  - left. right. by exists text.
Qed.

Lemma sidecar_exclusive (fileName text line : string) :
  sidecar_is w fileName text line -> ~ sidecar_malformed w fileName.
Proof.
  intros [Hf Hl] [Hn|(text' & Hf' & Hl')]; [congruence|].
  rewrite Hf in Hf'. injection Hf' as <-. congruence.
Qed.

(** One turn of the loop. *)
Lemma for_of_skip (fileName : string) (rest : list string) (sounds : list Sound) :
  is_mp3 fileName = false ->
  for_of (fileName :: rest) sounds w = for_of rest sounds w.
Proof. unfold is_mp3. intros H. simpl. by rewrite H. Qed.

Lemma for_of_push (fileName text line : string) (rest : list string) (sounds : list Sound) :
  is_mp3 fileName = true ->
  sidecar_is w fileName text line ->
  for_of (fileName :: rest) sounds w =
  for_of rest (sounds ++ [entry (length sounds) fileName text line]) w.
Proof.
  unfold is_mp3, sidecar_is, lines. intros H [Hf Hl]. simpl. rewrite H.
  unfold bind at 1, file_text. rewrite Hf.
  unfold bind at 1. rewrite Hl. simpl. done.
Qed.

Lemma for_of_throw (fileName : string) (rest : list string) (sounds : list Sound) :
  is_mp3 fileName = true ->
  sidecar_malformed w fileName ->
  exists e, for_of (fileName :: rest) sounds w = (Throw e, w).
Proof.
  unfold is_mp3, sidecar_malformed, lines. intros H Hm. simpl. rewrite H.
  unfold bind at 1, file_text. destruct Hm as [Hf|(text & Hf & Hl)]; rewrite Hf.
  - eauto.
  - unfold bind at 1. rewrite Hl. simpl. eauto.
Qed.

Lemma audioFiles_cons (fileName : string) (rest : list string) :
  audioFiles (fileName :: rest) =
  if is_mp3 fileName then fileName :: audioFiles rest else audioFiles rest.
Proof. reflexivity. Qed.

(** The whole loop: either every audio file has a well-formed sidecar and
    the loop appends their entries, or some sidecar is malformed and the loop
    throws.  The world is left as it was in both cases. *)
Lemma for_of_cases (listing : list string) (sounds : list Sound) :
  (exists es, Built w (length sounds) (audioFiles listing) es /\
              for_of listing sounds w = (Normal (sounds ++ es), w)) \/
  (Exists (sidecar_malformed w) (audioFiles listing) /\
   exists e, for_of listing sounds w = (Throw e, w)).
Proof.
  revert sounds. induction listing as [|fileName rest IH]; intros sounds.
  - left. exists []. split; [constructor|]. simpl. by rewrite app_nil_r.
  - rewrite audioFiles_cons. destruct (is_mp3 fileName) eqn:Hmp3.
    + destruct (sidecar_cases fileName) as [Hbad|(text & line & Hok)].
      * right. split; [by constructor|]. by apply for_of_throw.
      * rewrite (for_of_push _ _ _ _ _ Hmp3 Hok).
        destruct (IH (sounds ++ [entry (length sounds) fileName text line]))
          as [(es & Hes & Hrun)|(Hbad & e & Hrun)].
        -- left. exists (entry (length sounds) fileName text line :: es).
           rewrite length_app, Nat.add_1_r in Hes. split; [by econstructor|].
           by rewrite Hrun, <- app_assoc.
        -- right. split; [by constructor|]. eauto.
    + rewrite (for_of_skip _ _ _ Hmp3). apply IH.
Qed.

Lemma Built_not_malformed (n : nat) (fs : list string) (es : list Sound) :
  Built w n fs es -> Exists (sidecar_malformed w) fs -> False.
Proof.
  induction 1 as [|n f text line fs es Hok _ IH]; intros Hex.
  - by apply Exists_nil in Hex.
  - apply Exists_cons in Hex as [Hbad|Hex]; [|by apply IH].
    by apply (sidecar_exclusive _ _ _ Hok).
Qed.

Lemma Built_length (n : nat) (fs : list string) (es : list Sound) :
  Built w n fs es -> length es = length fs.
Proof. induction 1; simpl; congruence. Qed.

(** Entry [k] is the entry of audio file [k]. *)
Lemma Built_lookup (n : nat) (fs : list string) (es : list Sound) (k : nat) (s : Sound) :
  Built w n fs es -> es !! k = Some s ->
  exists fileName text line,
    fs !! k = Some fileName /\ sidecar_is w fileName text line /\
    s = entry (n + k) fileName text line.
Proof.
  intros HB. revert k. induction HB as [|n f text line fs es Hok _ IH]; intros k Hk.
  - done.
  - destruct k as [|k]; simpl in Hk.
    + injection Hk as <-. exists f, text, line. by rewrite Nat.add_0_r.
    + destruct (IH k Hk) as (f' & t' & l' & Hf & Hs & ->).
      exists f', t', l'. by rewrite Nat.add_succ_r.
Qed.

Lemma Built_lookup_file (n : nat) (fs : list string) (es : list Sound) (k : nat) (f : string) :
  Built w n fs es -> fs !! k = Some f ->
  exists text line, sidecar_is w f text line /\ es !! k = Some (entry (n + k) f text line).
Proof.
  intros HB Hf.
  destruct (es !! k) as [s|] eqn:Hk.
  - destruct (Built_lookup _ _ _ _ _ HB Hk) as (f' & text & line & Hf' & Hok & ->).
    rewrite Hf in Hf'. injection Hf' as <-. eauto.
  - apply lookup_ge_None in Hk. apply lookup_lt_Some in Hf.
    rewrite (Built_length _ _ _ HB) in Hk. lia.
Qed.

Lemma generateApi_unfold :
  generateApi w =
  match dirs w !! dirPath with
  | Some listing =>
      match for_of listing [] w with
      | (Normal l, w') => (Normal l, w')
      | (Throw e, w') => (Normal [], logged e w')
      end
  | None => (Normal [], logged (ENOENT dirPath) w)
  end.
Proof.
  unfold generateApi, try_catch, bind, readdir, console_log, ret, logged.
  destruct (dirs w !! dirPath) as [listing|]; [|done].
  by destruct (for_of listing [] w) as [[l|e] w'].
Qed.

(** What [generateApi] does, case by case. *)
Lemma generateApi_cases :
  (exists listing es,
     dirs w !! dirPath = Some listing /\ Built w 0 (audioFiles listing) es /\
     generateApi w = (Normal es, w)) \/
  (exists e,
     (dirs w !! dirPath = None \/
      exists listing, dirs w !! dirPath = Some listing /\
                      Exists (sidecar_malformed w) (audioFiles listing) /\
                      for_of listing [] w = (Throw e, w)) /\
     generateApi w = (Normal [], logged e w)).
Proof.
  rewrite generateApi_unfold.
  destruct (dirs w !! dirPath) as [listing|] eqn:Hdir.
  - destruct (for_of_cases listing []) as [(es & Hes & Hrun)|(Hbad & e & Hrun)];
      rewrite Hrun.
    + left. by exists listing, es.
    + right. exists e. split; [right; by exists listing | done].
  - right. exists (ENOENT dirPath). split; [by left | done].
Qed.

(** [generateApi] never throws, and never touches the filesystem. *)
Lemma generateApi_returns :
  exists l w', generateApi w = (Normal l, w') /\
               dirs w' = dirs w /\ files w' = files w.
Proof.
  destruct generateApi_cases as [(listing & es & _ & _ & ->)|(e & _ & ->)]; eauto 6.
Qed.

End BuilderFacts.

(* ===================================================================== *)
(** ** The handlers, run *)
(* ===================================================================== *)

Lemma getSounds_run (search : option string) (w w' : World) (l : list Sound) :
  generateApi w = (Normal l, w') ->
  getSounds search w = (Normal (soundsResponse search l), w').
Proof. intros H. unfold getSounds, bind. by rewrite H. Qed.

Lemma soundsResponse_no_search (search : option string) (sounds : list Sound) :
  truthy search = None -> soundsResponse search sounds = c_json (JSounds sounds) 200.
Proof. intros H. unfold soundsResponse. by rewrite H. Qed.

Lemma soundsResponse_search (search : option string) (term : string) (sounds : list Sound) :
  truthy search = Some term ->
  soundsResponse search sounds =
  match List.filter (matches term) sounds with
  | [] => c_json (JError "No sounds found") 404
  | filteredSounds => c_json (JSounds filteredSounds) 200
  end.
Proof.
  intros H. unfold soundsResponse. rewrite H.
  by destruct (List.filter (matches term) sounds).
Qed.

(* ===================================================================== *)
(** ** The empty catalog without a search term *)
(* ===================================================================== *)

(** C1.  Without a search term, [GET /sounds] answers 200 with the catalog as
    a JSON array whatever the catalog is: [sounds != null] holds of every
    array, so the 404 branch of lines 70-73 is never taken.  With an empty
    music directory, and with no music directory at all, the answer is 200
    with the empty array, not the 404 the route documents. *)
Theorem empty_catalog_without_search_is_200 :
  getSounds None world_empty_dir =
    (Normal (c_json (JSounds []) 200), world_empty_dir) /\
  getSounds None world_no_dir =
    (Normal (c_json (JSounds []) 200), logged (ENOENT dirPath) world_no_dir) /\
  (forall w, exists l w', getSounds None w = (Normal (c_json (JSounds l) 200), w')).
Proof.
  split; [by vm_compute|]. split; [by vm_compute|].
  intros w. destruct (generateApi_returns w) as (l & w' & Hrun & _).
  exists l, w'. by rewrite (getSounds_run None _ _ _ Hrun).
Qed.

(* ===================================================================== *)
(** ** A malformed sidecar *)
(* ===================================================================== *)

(** C2, as stated, fails.  In [world_lost_sidecar] the audio file [lost.mp3]
    of the listing has no sidecar, yet the builder does not throw: it returns
    the empty catalog, having logged the rejected read. *)
Lemma malformed_sidecar_does_not_escape :
  dirs world_lost_sidecar !! dirPath = Some ["cool_beat.mp3"; "lost.mp3"] /\
  "lost.mp3" ∈ audioFiles ["cool_beat.mp3"; "lost.mp3"] /\
  sidecar_malformed world_lost_sidecar "lost.mp3" /\
  generateApi world_lost_sidecar =
    (Normal [], logged (ENOENT "./assets/description/lost.txt") world_lost_sidecar) /\
  ~ (exists e, fst (generateApi world_lost_sidecar) = Throw e).
Proof.
  split; [by vm_compute|]. split.
  { vm_compute. apply list_elem_of_further, list_elem_of_here. }
  split; [left; by vm_compute|]. split; [by vm_compute|].
  intros [e He]. vm_compute in He. discriminate He.
Qed.

Example lost_sidecar_build :
  generateApi world_lost_sidecar =
  (Normal [], logged (ENOENT "./assets/description/lost.txt") world_lost_sidecar).
Proof. by vm_compute. Qed.

Example short_sidecar_build :
  generateApi world_short_sidecar =
  (Normal [], logged (TypeError "undefined is not an object") world_short_sidecar).
Proof. by vm_compute. Qed.

(** C2, amended.  When the sidecar of some audio file of the listing is
    missing or has no second line, the failure is not caught inside the loop:
    the loop throws, whatever entries it had built.  The [try]/[catch] of the
    builder catches it: the error is logged and the builder returns the empty
    catalog, the filesystem untouched. *)
Theorem malformed_sidecar_aborts_build (w : World) (listing : list string) (fileName : string) :
  dirs w !! dirPath = Some listing ->
  fileName ∈ audioFiles listing ->
  sidecar_malformed w fileName ->
  exists e, for_of listing [] w = (Throw e, w) /\
            generateApi w = (Normal [], logged e w).
Proof.
  intros Hdir Hin Hbad.
  assert (Exists (sidecar_malformed w) (audioFiles listing)) as Hex.
  { apply Exists_exists. eauto. }
  destruct (for_of_cases w listing []) as [(es & Hes & _)|(_ & e & Hrun)].
  - destruct (Built_not_malformed _ _ _ _ Hes Hex).
  - exists e. split; [done|]. by rewrite generateApi_unfold, Hdir, Hrun.
Qed.

Lemma malformed_sidecar_aborts_build_witness :
  exists e, for_of ["cool_beat.mp3"; "lost.mp3"] [] world_lost_sidecar
              = (Throw e, world_lost_sidecar) /\
            generateApi world_lost_sidecar = (Normal [], logged e world_lost_sidecar).
Proof.
  apply (malformed_sidecar_aborts_build world_lost_sidecar
           ["cool_beat.mp3"; "lost.mp3"] "lost.mp3").
  - by vm_compute.
  - vm_compute. apply list_elem_of_further, list_elem_of_here.
  - left. by vm_compute.
Defined.

(* ===================================================================== *)
(** ** Titles and entries *)
(* ===================================================================== *)

Example title_cool_beat : title "cool_beat.mp3" = "Cool Beat".
Proof. reflexivity. Qed.

Example title_words :
  Js.split (Js.replace (Js.replace "a_b_c.mp3" ".mp3" "") "_" " ") " "%char = ["a"; "b_c"].
Proof. reflexivity. Qed.

Example tags_not_trimmed : Js.split " a - b " "-"%char = [" a "; " b "].
Proof. reflexivity. Qed.

(** C3, as stated, fails: the title of [a_b_c.mp3] is not ["A b_c"]. *)
Lemma title_a_b_c_is_not_A_b_c : title "a_b_c.mp3" ≠ "A b_c".
Proof. by vm_compute. Qed.

(** C3, amended.  Only the first underscore is replaced by a space: a name
    [p_q] with no underscore in [p] becomes [p q], whatever underscores [q]
    has.  The result is then split on spaces and every word is capitalised,
    so [a_b_c.mp3] gives the words ["a"] and ["b_c"] and the title
    ["A B_c"]. *)
Theorem title_replaces_first_underscore_only (p q : string) :
  Js.includes p "_" = false ->
  Js.replace (p +:+ "_" +:+ q) "_" " " = p +:+ " " +:+ q /\
  Js.split (Js.replace (Js.replace "a_b_c.mp3" ".mp3" "") "_" " ") " "%char = ["a"; "b_c"] /\
  title "a_b_c.mp3" = "A B_c".
Proof.
  intros Hp. split; [|by vm_compute].
  apply (replace_first_char p q "_"%char " " Hp).
Qed.

Lemma title_replaces_first_underscore_only_witness :
  Js.replace ("a" +:+ "_" +:+ "b_c") "_" " " = "a" +:+ " " +:+ "b_c" /\
  Js.split (Js.replace (Js.replace "a_b_c.mp3" ".mp3" "") "_" " ") " "%char = ["a"; "b_c"] /\
  title "a_b_c.mp3" = "A B_c".
Proof. apply (title_replaces_first_underscore_only "a" "b_c"). reflexivity. Defined.

(** When every audio file has a well-formed sidecar, the build completes with
    the entries of the audio files, one each, in listing order. *)
Lemma build_completes (w : World) (listing : list string) :
  dirs w !! dirPath = Some listing ->
  Forall (fun f => ~ sidecar_malformed w f) (audioFiles listing) ->
  exists es, generateApi w = (Normal es, w) /\
             Built w 0 (audioFiles listing) es /\
             length es = length (audioFiles listing).
Proof.
  intros Hdir Hall. rewrite generateApi_unfold, Hdir.
  destruct (for_of_cases w listing []) as [(es & Hes & ->)|(Hbad & _)].
  - exists es. split; [done|]. split; [done|]. by apply Built_length in Hes.
  - apply Exists_exists in Hbad as (f & Hf & Hbad).
    rewrite Forall_forall in Hall. by destruct (Hall f Hf).
Qed.

(** Entry [k] of a built catalog is the entry of audio file [k] of the
    listing, made from that file's sidecar. *)
Lemma generateApi_lookup (w w' : World) (l : list Sound) (k : nat) (s : Sound) :
  generateApi w = (Normal l, w') -> l !! k = Some s ->
  exists listing fileName text line,
    dirs w !! dirPath = Some listing /\
    audioFiles listing !! k = Some fileName /\
    sidecar_is w fileName text line /\
    s = entry k fileName text line.
Proof.
  intros Hrun Hk.
  destruct (generateApi_cases w) as [(listing & es & Hdir & Hes & Hrun')|(e & _ & Hrun')];
    rewrite Hrun' in Hrun; injection Hrun as <- <-; [|done].
  destruct (Built_lookup _ _ _ _ _ _ Hes Hk) as (f & text & line & Hf & Hok & Hs).
  by exists listing, f, text, line.
Qed.



(* ===================================================================== *)
(** ** The search filter *)
(* ===================================================================== *)

Example demo_catalog_built : generateApi world_demo = (Normal demo_catalog, world_demo).
Proof. by vm_compute. Qed.

Lemma contains_ci_spec (s term : string) :
  Js.includes (Js.toLowerCase s) (Js.toLowerCase term) = true <-> contains_ci s term.
Proof. apply includes_spec. Qed.

(** The predicate of the filter decides the matching rule. *)
Lemma matches_spec (term : string) (sound : Sound) :
  matches term sound = true <-> Matches term sound.
Proof.
  unfold matches, Matches.
  rewrite orb_true_iff, contains_ci_spec, existsb_exists.
  split; (intros [H|(tag & Hin & H)]; [by left|]); right; exists tag.
  - split; [by apply list_elem_of_In | by apply contains_ci_spec].
  - split; [by apply list_elem_of_In | by apply contains_ci_spec].
Qed.

Lemma filter_elem_of (term : string) (sounds : list Sound) (s : Sound) :
  s ∈ List.filter (matches term) sounds <-> s ∈ sounds /\ Matches term s.
Proof. by rewrite !list_elem_of_In, filter_In, matches_spec. Qed.

Lemma filter_sublist (term : string) (sounds : list Sound) :
  List.filter (matches term) sounds `sublist_of` sounds.
Proof.
  induction sounds as [|s sounds IH]; simpl; [done|].
  destruct (matches term s); by constructor.
Qed.

Lemma truthy_Some (term : string) : term ≠ "" -> truthy (Some term) = Some term.
Proof.
  intros H. unfold truthy. destruct (String.eqb term "") eqn:E; [|done].
  by apply String.eqb_eq in E.
Qed.

(** C5.  With a non-empty search term, [GET /sounds] answers from the list
    [filtered] that holds exactly the entries of the catalog whose name, or
    one of whose tags, contains the term as a substring with case ignored,
    in catalog order.  With no term the whole catalog is returned.  The term
    ["eat"] matches the name ["Cool Beat"]. *)
Theorem search_filter_exact (sounds : list Sound) (term : string) :
  term ≠ "" ->
  (exists filtered,
     soundsResponse (Some term) sounds =
       match filtered with
       | [] => c_json (JError "No sounds found") 404
       | _ => c_json (JSounds filtered) 200
       end /\
     (forall s, s ∈ filtered <-> s ∈ sounds /\ Matches term s) /\
     filtered `sublist_of` sounds) /\
  soundsResponse None sounds = c_json (JSounds sounds) 200 /\
  (forall s, name s = "Cool Beat" -> Matches "eat" s /\ matches "eat" s = true).
Proof.
  intros Hterm. split; [|split].
  - exists (List.filter (matches term) sounds). split; [|split].
    + rewrite (soundsResponse_search _ term) by by apply truthy_Some.
      by destruct (List.filter (matches term) sounds).
    + intros s. apply filter_elem_of.
    + apply filter_sublist.
  - by apply soundsResponse_no_search.
  - intros s Hname.
    assert (matches "eat" s = true) as Hm.
    { unfold matches. rewrite Hname. reflexivity. }
    split; [by apply matches_spec | done].
Qed.

Lemma search_filter_exact_witness :
  (exists filtered,
     soundsResponse (Some "eat") demo_catalog =
       match filtered with
       | [] => c_json (JError "No sounds found") 404
       | _ => c_json (JSounds filtered) 200
       end /\
     (forall s, s ∈ filtered <-> s ∈ demo_catalog /\ Matches "eat" s) /\
     filtered `sublist_of` demo_catalog) /\
  soundsResponse None demo_catalog = c_json (JSounds demo_catalog) 200 /\
  (forall s, name s = "Cool Beat" -> Matches "eat" s /\ matches "eat" s = true).
Proof. apply (search_filter_exact demo_catalog "eat"). discriminate. Defined.



(* ===================================================================== *)
(** ** Identifiers *)
(* ===================================================================== *)

(** C7.  In a built catalog the entry at position [k] (counted from 0) has
    the id [k + 1], and it is the entry of the audio file at position [k]
    among the [.mp3] names of the directory listing, taken in listing order:
    names that do not end in [.mp3] are passed over and take no id.  So the
    ids are 1, 2, ... without gap or repetition. *)
Theorem ids_contiguous_in_listing_order (w w' : World) (l : list Sound) :
  generateApi w = (Normal l, w') ->
  NoDup (id <$> l) /\
  forall k s, l !! k = Some s ->
    id s = Z.of_nat k + 1 /\
    exists listing fileName,
      dirs w !! dirPath = Some listing /\
      List.filter (fun f => Js.endsWith f ".mp3") listing !! k = Some fileName /\
      audio s = "/audio/" +:+ fileName.
Proof.
  intros Hrun.
  assert (forall k s, l !! k = Some s -> id s = Z.of_nat k + 1) as Hid.
  { intros k s Hk.
    by destruct (generateApi_lookup _ _ _ _ _ Hrun Hk) as (? & ? & ? & ? & _ & _ & _ & ->). }
  split.
  - apply NoDup_alt. intros i j x Hi Hj.
    rewrite list_lookup_fmap in Hi, Hj.
    destruct (l !! i) as [si|] eqn:Ei; [|done].
    destruct (l !! j) as [sj|] eqn:Ej; [|done].
    simpl in Hi, Hj. injection Hi as Hi. injection Hj as Hj.
    rewrite (Hid _ _ Ei) in Hi. rewrite (Hid _ _ Ej) in Hj. lia.
  - intros k s Hk. split; [by apply Hid|].
    destruct (generateApi_lookup _ _ _ _ _ Hrun Hk)
      as (listing & f & text & line & Hdir & Hf & _ & ->).
    by exists listing, f.
Qed.

Lemma ids_contiguous_in_listing_order_witness :
  NoDup (id <$> demo_catalog) /\
  forall k s, demo_catalog !! k = Some s ->
    id s = Z.of_nat k + 1 /\
    exists listing fileName,
      dirs world_demo !! dirPath = Some listing /\
      List.filter (fun f => Js.endsWith f ".mp3") listing !! k = Some fileName /\
      audio s = "/audio/" +:+ fileName.
Proof.
  apply (ids_contiguous_in_listing_order world_demo world_demo demo_catalog).
  by vm_compute.
Defined.

(* ===================================================================== *)
(** ** Determinism *)
(* ===================================================================== *)

(** What a path names depends on the directories and the files. *)
Lemma file_at_ext (w1 w2 : World) (path : string) :
  dirs w1 = dirs w2 -> files w1 = files w2 -> file_at w1 path = file_at w2 path.
Proof. intros Hd Hf. unfold file_at, is_dir. by rewrite Hd, Hf. Qed.

(** The loop reads the sidecar files and nothing else. *)
Lemma for_of_frame (w1 w2 : World) (listing : list string) (sounds : list Sound) :
  dirs w1 = dirs w2 ->
  files w1 = files w2 ->
  for_of listing sounds w1 = (fst (for_of listing sounds w2), w1).
Proof.
  intros Hdirs Hfiles0.
  assert (forall path, file_at w1 path = file_at w2 path) as Hfiles.
  { intros path. by apply file_at_ext. }
  revert sounds.
  induction listing as [|fileName rest IH]; intros sounds; [done|].
  simpl. destruct (Js.endsWith fileName ".mp3"); [|apply IH].
  unfold bind at 1 3, file_text. rewrite Hfiles.
  destruct (file_at w2 (descriptionPath fileName)) as [text|]; [|done].
  unfold bind at 1 2.
  destruct (Js.split text LF !! 1%nat) as [line|]; simpl; [apply IH | done].
Qed.

(** The builder's result is a function of the directories and the files. *)
Lemma generateApi_frame (w1 w2 : World) :
  dirs w1 = dirs w2 -> files w1 = files w2 ->
  fst (generateApi w1) = fst (generateApi w2).
Proof.
  intros Hdirs Hfiles. rewrite !generateApi_unfold, Hdirs.
  destruct (dirs w2 !! dirPath) as [listing|]; [|done].
  rewrite (for_of_frame w1 w2 _ _ Hdirs Hfiles).
  destruct (for_of listing [] w2) as [[l|e] w']; done.
Qed.

(** C8.  A build returns a catalog [l] and leaves the directories and the
    files as they were; a second build, run in the world the first one left,
    returns the same [l], equal in every field, ids included.  More
    generally every world with the same directories and files builds [l]. *)
Theorem build_is_deterministic (w : World) :
  exists l w1 w2,
    generateApi w = (Normal l, w1) /\
    generateApi w1 = (Normal l, w2) /\
    dirs w1 = dirs w /\ files w1 = files w /\
    forall v, dirs v = dirs w -> files v = files w -> fst (generateApi v) = Normal l.
Proof.
  destruct (generateApi_returns w) as (l & w1 & Hrun & Hdirs & Hfiles).
  assert (forall v, dirs v = dirs w -> files v = files w ->
                    fst (generateApi v) = Normal l) as Hsame.
  { intros v Hd Hf. by rewrite (generateApi_frame v w Hd Hf), Hrun. }
  destruct (generateApi_returns w1) as (l' & w2 & Hrun' & _).
  exists l, w1, w2. split; [done|]. split; [|done].
  specialize (Hsame w1 Hdirs Hfiles). rewrite Hrun' in Hsame.
  simpl in Hsame. injection Hsame as ->. done.
Qed.

(* ===================================================================== *)
(** ** Downloads *)
(* ===================================================================== *)

Lemma getAudio_run (w : World) (fileName : string) :
  getAudio fileName w =
  (Normal (download (file_at w ("./assets/music/" +:+ fileName))
                    "audio/mpeg" "Audio file not found"), w).
Proof.
  unfold getAudio, bind, file_exists, file_stream, file_text.
  destruct (file_at w ("./assets/music/" +:+ fileName)) eqn:E; simpl; [|done].
  by rewrite E.
Qed.

Lemma getCover_run (w : World) (fileName : string) :
  getCover fileName w =
  (Normal (download (file_at w ("./assets/cover/" +:+ fileName))
                    "image/jpeg" "Cover image not found"), w).
Proof.
  unfold getCover, bind, file_exists, file_stream, file_text.
  destruct (file_at w ("./assets/cover/" +:+ fileName)) eqn:E; simpl; [|done].
  by rewrite E.
Qed.

Lemma plain_name_inv (n : string) :
  plain_name n = true ->
  Js.includes n "/" = false /\ String.eqb n "" = false /\
  String.eqb n "." = false /\ String.eqb n ".." = false.
Proof.
  unfold plain_name. rewrite !andb_true_iff, !negb_true_iff. tauto.
Qed.

Lemma step_plain (is_d : string -> bool) (cur : list string) (n : string) :
  plain_name n = true -> Path.step is_d cur n = Some (n :: cur).
Proof.
  intros (_ & H0 & H1 & H2)%plain_name_inv. unfold Path.step.
  by rewrite H0, H1, H2.
Qed.

(** A plain name under a directory two levels down is resolved to itself. *)
Lemma file_plain (is_d : string -> bool) (d1 d2 n : string) :
  plain_name d1 = true -> plain_name d2 = true -> plain_name n = true ->
  Path.file is_d ("./" +:+ d1 +:+ "/" +:+ d2 +:+ "/" +:+ n) =
  Some ("./" +:+ d1 +:+ "/" +:+ d2 +:+ "/" +:+ n).
Proof.
  intros H1 H2 Hn.
  assert (Js.split ("./" +:+ d1 +:+ "/" +:+ d2 +:+ "/" +:+ n) "/"%char = ["."; d1; d2; n])
    as Hsplit.
  { change ("./" +:+ d1 +:+ "/" +:+ d2 +:+ "/" +:+ n)
      with ("." +:+ String "/"%char (d1 +:+ String "/"%char (d2 +:+ String "/"%char n))).
    apply plain_name_inv in H1 as (H1 & _), H2 as (H2 & _), Hn as (Hn & _).
    rewrite (split_app "." _ "/"%char) by done.
    by rewrite (split_app d1 _ _ H1), (split_app d2 _ _ H2), (split_no_sep n _ Hn). }
  unfold Path.file. rewrite Hsplit. cbn [last].
  destruct (plain_name_inv n Hn) as (_ & E0 & E1 & E2). rewrite E0, E1, E2.
  cbn [orb Path.walk]. change (Path.step is_d [] ".") with (Some (@nil string)).
  cbn iota. rewrite (step_plain _ _ _ H1). cbn iota.
  rewrite (step_plain _ _ _ H2). cbn iota.
  rewrite (step_plain _ _ _ Hn). reflexivity.
Qed.

Lemma file_at_music (w : World) (n : string) :
  plain_name n = true ->
  file_at w ("./assets/music/" +:+ n) = in_directory w "./assets/music" n.
Proof.
  intros Hn. unfold file_at, in_directory. rewrite Hn.
  change ("./assets/music/" +:+ n) with ("./" +:+ "assets" +:+ "/" +:+ "music" +:+ "/" +:+ n).
  by rewrite (file_plain _ "assets" "music" n).
Qed.

Lemma file_at_cover (w : World) (n : string) :
  plain_name n = true ->
  file_at w ("./assets/cover/" +:+ n) = in_directory w "./assets/cover" n.
Proof.
  intros Hn. unfold file_at, in_directory. rewrite Hn.
  change ("./assets/cover/" +:+ n) with ("./" +:+ "assets" +:+ "/" +:+ "cover" +:+ "/" +:+ n).
  by rewrite (file_plain _ "assets" "cover" n).
Qed.

(** C9, as stated, fails.  In [world_shelf] the music directory holds no
    file under the name [../cover/other.jpg], and lists none, yet
    [GET /audio/{fileName}] with that name does not answer 404: the path
    [./assets/music/../cover/other.jpg] names the cover [other.jpg], whose
    bytes are sent as [audio/mpeg]. *)
Lemma traversal_serves_a_cover_as_audio :
  in_directory world_shelf "./assets/music" "../cover/other.jpg" = None /\
  dirs world_shelf !! dirPath = Some ["readme.md"; "cool_beat.mp3"] /\
  getAudio "../cover/other.jpg" world_shelf =
    (Normal {| status := 200; headers := [("Content-Type", "audio/mpeg")];
               body := StreamBody "JFIF" |}, world_shelf) /\
  ~ (getAudio "../cover/other.jpg" world_shelf
       = (Normal (c_json (JError "Audio file not found") 404), world_shelf)
     <-> in_directory world_shelf "./assets/music" "../cover/other.jpg" = None).
Proof.
  assert (getAudio "../cover/other.jpg" world_shelf =
            (Normal {| status := 200; headers := [("Content-Type", "audio/mpeg")];
                       body := StreamBody "JFIF" |}, world_shelf)) as Hrun
    by by vm_compute.
  split; [reflexivity|]. split; [by vm_compute|]. split; [done|].
  intros [_ H]. rewrite Hrun in H. by specialize (H eq_refl).
Qed.

(** C9, amended.  [GET /audio/{fileName}] answers 404 with
    [{error: "Audio file not found"}] exactly when the path
    [./assets/music/{fileName}], resolved by the filesystem, names no regular
    file; when it names one, the answer carries the bytes of that file with
    [Content-Type: audio/mpeg].  For a plain [fileName] (one segment, not
    [.] or [..]) the file named is the one the music directory holds under
    that name; a [fileName] with [..] in it may name a file elsewhere.
    [GET /cover/{fileName}] does the same over the cover directory, with
    [image/jpeg] and [{error: "Cover image not found"}].  The answer is a
    function of the file that one path names: the listing, the sidecars and
    so the catalog play no part. *)
Theorem downloads_by_presence (w : World) (fileName : string) :
  (getAudio fileName w = (Normal (c_json (JError "Audio file not found") 404), w)
     <-> file_at w ("./assets/music/" +:+ fileName) = None) /\
  (forall bytes, file_at w ("./assets/music/" +:+ fileName) = Some bytes ->
     getAudio fileName w =
       (Normal {| status := 200; headers := [("Content-Type", "audio/mpeg")];
                  body := StreamBody bytes |}, w)) /\
  (plain_name fileName = true ->
     file_at w ("./assets/music/" +:+ fileName) = in_directory w "./assets/music" fileName) /\
  (getCover fileName w = (Normal (c_json (JError "Cover image not found") 404), w)
     <-> file_at w ("./assets/cover/" +:+ fileName) = None) /\
  (forall bytes, file_at w ("./assets/cover/" +:+ fileName) = Some bytes ->
     getCover fileName w =
       (Normal {| status := 200; headers := [("Content-Type", "image/jpeg")];
                  body := StreamBody bytes |}, w)) /\
  (plain_name fileName = true ->
     file_at w ("./assets/cover/" +:+ fileName) = in_directory w "./assets/cover" fileName) /\
  (forall v,
     file_at v ("./assets/music/" +:+ fileName) = file_at w ("./assets/music/" +:+ fileName) ->
     fst (getAudio fileName v) = fst (getAudio fileName w)) /\
  (forall v,
     file_at v ("./assets/cover/" +:+ fileName) = file_at w ("./assets/cover/" +:+ fileName) ->
     fst (getCover fileName v) = fst (getCover fileName w)).
Proof.
  repeat split.
  - rewrite getAudio_run.
    destruct (file_at w ("./assets/music/" +:+ fileName)); [discriminate|done].
  - intros H. by rewrite getAudio_run, H.
  - intros bytes H. by rewrite getAudio_run, H.
  - apply file_at_music.
  - rewrite getCover_run.
    destruct (file_at w ("./assets/cover/" +:+ fileName)); [discriminate|done].
  - intros H. by rewrite getCover_run, H.
  - intros bytes H. by rewrite getCover_run, H.
  - apply file_at_cover.
  - intros v H. by rewrite !getAudio_run, H.
  - intros v H. by rewrite !getCover_run, H.
Qed.

(** Resolution at work: a name that goes through a directory that does not
    exist names nothing, and neither does a name with a slash after it. *)
Example paths_that_name_nothing :
  file_at world_shelf "./assets/music/ghost/../cool_beat.mp3" = None /\
  file_at world_shelf "./assets/music/cool_beat.mp3/" = None /\
  file_at world_shelf "./assets/music/./cool_beat.mp3" = Some "ID3" /\
  file_at world_shelf "./assets/music//cool_beat.mp3" = Some "ID3".
Proof. repeat split; by vm_compute. Qed.

Example audio_present :
  fst (getAudio "cool_beat.mp3" world_demo) =
  Normal {| status := 200; headers := [("Content-Type", "audio/mpeg")];
            body := StreamBody "ID3" |}.
Proof. by vm_compute. Qed.

Example audio_absent_though_listed :
  fst (getSounds (Some "b_c") world_demo) =
    Normal (c_json (JSounds [ {| id := 2; name := "A B_c"; description := "Only one line";
                                 tags := [""]; audio := "/audio/a_b_c.mp3";
                                 cover := "/cover/a_b_c.jpg" |} ]) 200) /\
  fst (getAudio "a_b_c.mp3" world_demo) = Normal (c_json (JError "Audio file not found") 404).
Proof. split; by vm_compute. Qed.

(* ===================================================================== *)
(** ** Tags *)
(* ===================================================================== *)

(** C10.  Every entry of a built catalog has at least one tag: a split has
    at least one piece.  An empty second line gives the single tag [""], and
    a second line without ['-'] gives itself as the single tag. *)
Theorem tags_never_empty (w w' : World) (l : list Sound) (s : Sound) :
  generateApi w = (Normal l, w') ->
  s ∈ l ->
  tags s ≠ [] /\
  Js.split "" "-"%char = [""] /\
  (forall line, Js.includes line "-" = false -> Js.split line "-"%char = [line]).
Proof.
  intros Hrun Hin. split; [|split; [reflexivity|]].
  - apply list_elem_of_lookup in Hin as [k Hk].
    destruct (generateApi_lookup _ _ _ _ _ Hrun Hk) as (? & ? & ? & line & _ & _ & _ & ->).
    simpl. apply split_not_nil.
  - intros line. apply split_no_sep.
Qed.

Lemma tags_never_empty_witness :
  tags {| id := 2; name := "A B_c"; description := "Only one line"; tags := [""];
          audio := "/audio/a_b_c.mp3"; cover := "/cover/a_b_c.jpg" |} ≠ [] /\
  Js.split "" "-"%char = [""] /\
  (forall line, Js.includes line "-" = false -> Js.split line "-"%char = [line]).
Proof.
  apply (tags_never_empty world_demo world_demo demo_catalog).
  - by vm_compute.
  - apply list_elem_of_further, list_elem_of_here.
Defined.

(* ===================================================================== *)
(** * Further properties of the builder and the handlers *)
(* ===================================================================== *)

(* ===================================================================== *)
(** ** More facts about the string methods *)
(* ===================================================================== *)

Section MoreStringFacts.

Lemma str_app_assoc (s t u : string) : (s +:+ t) +:+ u = s +:+ t +:+ u.
Proof. induction s as [|c s IH]; [done|]. by rewrite !app_String, IH. Qed.

Lemma str_app_nil_r (s : string) : s +:+ "" = s.
Proof. induction s as [|c s IH]; [done|]. by rewrite app_String, IH. Qed.

Lemma str_app_length (s t : string) :
  String.length (s +:+ t) = (String.length s + String.length t)%nat.
Proof. induction s as [|c s IH]; [done|]. rewrite app_String. simpl. by rewrite IH. Qed.

(** Upper-casing a character does not change its lower case. *)
Lemma lower_upper_char (c : ascii) : Js.lower_char (Js.upper_char c) = Js.lower_char c.
Proof. by destruct c as [[] [] [] [] [] [] [] []]. Qed.

Lemma toLowerCase_app (s t : string) :
  Js.toLowerCase (s +:+ t) = Js.toLowerCase s +:+ Js.toLowerCase t.
Proof. induction s as [|c s IH]; [done|]. rewrite !app_String. simpl. by rewrite IH. Qed.

Lemma toLowerCase_toUpperCase (s : string) :
  Js.toLowerCase (Js.toUpperCase s) = Js.toLowerCase s.
Proof. induction s as [|c s IH]; [done|]. simpl. by rewrite lower_upper_char, IH. Qed.

Lemma toLowerCase_empty (s : string) : Js.toLowerCase s = "" -> s = "".
Proof. by destruct s. Qed.

Lemma capitalize_String (c : ascii) (w : string) :
  capitalize (String c w) = String (Js.upper_char c) w.
Proof. reflexivity. Qed.

Lemma toLowerCase_capitalize (w : string) :
  Js.toLowerCase (capitalize w) = Js.toLowerCase w.
Proof.
  destruct w as [|c w]; [done|].
  rewrite capitalize_String. simpl. by rewrite lower_upper_char.
Qed.

Lemma join_cons (w : string) (ws : list string) (sep : string) :
  ws ≠ [] -> Js.join (w :: ws) sep = w +:+ sep +:+ Js.join ws sep.
Proof. by destruct ws. Qed.

Lemma join_cons_String (c : ascii) (w : string) (ws : list string) (sep : string) :
  Js.join (String c w :: ws) sep = String c (Js.join (w :: ws) sep).
Proof. by destruct ws. Qed.

Lemma toLowerCase_join_capitalize (ws : list string) (sep : string) :
  Js.toLowerCase (Js.join (map capitalize ws) sep) = Js.toLowerCase (Js.join ws sep).
Proof.
  induction ws as [|w ws IH]; [done|].
  destruct ws as [|w' ws]; [apply toLowerCase_capitalize|].
  change (map capitalize (w :: w' :: ws))
    with (capitalize w :: map capitalize (w' :: ws)).
  rewrite !join_cons by done.
  by rewrite !toLowerCase_app, toLowerCase_capitalize, IH.
Qed.

(** Joining the pieces of a split with the separator gives the string back. *)
Lemma join_split (s : string) (sep : ascii) :
  Js.join (Js.split s sep) (String sep "") = s.
Proof.
  induction s as [|c s IH]; [done|].
  rewrite split_String. destruct (Ascii.eqb c sep) eqn:E.
  - apply ascii_eqb_true in E as ->.
    rewrite join_cons by apply split_not_nil. by rewrite IH.
  - destruct (split_cons s sep) as (w & ws & Hs). rewrite Hs in IH |- *.
    by rewrite join_cons_String, IH.
Qed.

(** Splitting a join of separator-free words gives the words back. *)
Lemma split_join (ws : list string) (sep : ascii) :
  ws ≠ [] ->
  Forall (fun w => Js.includes w (String sep "") = false) ws ->
  Js.split (Js.join ws (String sep "")) sep = ws.
Proof.
  induction ws as [|w ws IH]; [done|]. intros _ Hall.
  apply Forall_cons in Hall as [Hw Hws].
  destruct ws as [|w' ws]; [by apply split_no_sep|].
  rewrite join_cons by done. change (String sep "" +:+ ?x) with (String sep x).
  rewrite (split_app _ _ _ Hw). by rewrite IH.
Qed.

End MoreStringFacts.

(* ===================================================================== *)
(** ** Titles keep the letters of the file name *)
(* ===================================================================== *)

Lemma toLowerCase_length (s : string) : String.length (Js.toLowerCase s) = String.length s.
Proof. induction s as [|c s IH]; [done|]. simpl. by rewrite IH. Qed.

(** X1.  For a file name of ASCII characters, capitalising changes letter
    case and nothing else: the title is, case ignored, the name without its
    first [.mp3] and with its first underscore turned into a space; spaces are
    kept as they are, doubled ones included, and so is the length.  (Outside
    ASCII the upper case of a character may be longer than the character.) *)
Theorem title_keeps_letters (fileName : string) :
  ascii_only fileName = true ->
  Js.toLowerCase (title fileName) =
    Js.toLowerCase (Js.replace (Js.replace fileName ".mp3" "") "_" " ") /\
  String.length (title fileName) =
    String.length (Js.replace (Js.replace fileName ".mp3" "") "_" " ").
Proof.
  intros _.
  assert (Js.toLowerCase (title fileName) =
          Js.toLowerCase (Js.replace (Js.replace fileName ".mp3" "") "_" " ")) as H.
  { unfold title. rewrite toLowerCase_join_capitalize.
    by rewrite (join_split _ " "%char). }
  split; [done|].
  by rewrite <- (toLowerCase_length (title fileName)), H, toLowerCase_length.
Qed.

Lemma title_keeps_letters_witness :
  Js.toLowerCase (title "two  words_here.mp3") =
    Js.toLowerCase (Js.replace (Js.replace "two  words_here.mp3" ".mp3" "") "_" " ") /\
  String.length (title "two  words_here.mp3") =
    String.length (Js.replace (Js.replace "two  words_here.mp3" ".mp3" "") "_" " ").
Proof. apply (title_keeps_letters "two  words_here.mp3"). reflexivity. Defined.

Example title_double_space : title "two  words_here.mp3" = "Two  Words Here".
Proof. reflexivity. Qed.

(* ===================================================================== *)
(** ** More on the search filter *)
(* ===================================================================== *)

Lemma matches_lower (t1 t2 : string) (sound : Sound) :
  Js.toLowerCase t1 = Js.toLowerCase t2 -> matches t1 sound = matches t2 sound.
Proof. intros H. unfold matches. by rewrite H. Qed.

Lemma filter_ext_matches (t1 t2 : string) (sounds : list Sound) :
  Js.toLowerCase t1 = Js.toLowerCase t2 ->
  List.filter (matches t1) sounds = List.filter (matches t2) sounds.
Proof.
  intros H. induction sounds as [|s sounds IH]; [done|].
  simpl. by rewrite (matches_lower t1 t2 s H), IH.
Qed.

(** A 200 answer to a search carries the filtered list, which is not empty. *)
Lemma soundsResponse_200_inv (term : string) (sounds found : list Sound) :
  term ≠ "" ->
  soundsResponse (Some term) sounds = c_json (JSounds found) 200 ->
  found = List.filter (matches term) sounds /\ found ≠ [].
Proof.
  intros Hterm. rewrite (soundsResponse_search _ term) by by apply truthy_Some.
  destruct (List.filter (matches term) sounds) as [|s rest]; [discriminate|].
  intros H. injection H as <-. done.
Qed.

Lemma soundsResponse_found (term : string) (sounds : list Sound) (s : Sound) :
  term ≠ "" ->
  s ∈ List.filter (matches term) sounds ->
  soundsResponse (Some term) sounds = c_json (JSounds (List.filter (matches term) sounds)) 200.
Proof.
  intros Hterm Hs. rewrite (soundsResponse_search _ term) by by apply truthy_Some.
  destruct (List.filter (matches term) sounds); [|done]. by apply elem_of_nil in Hs.
Qed.

(** X2.  The case of the search term does not matter: two terms with the
    same lower case get the same answer from every catalog. *)
Theorem search_ignores_case_of_term (sounds : list Sound) (t1 t2 : string) :
  Js.toLowerCase t1 = Js.toLowerCase t2 ->
  soundsResponse (Some t1) sounds = soundsResponse (Some t2) sounds.
Proof.
  intros H. destruct t1 as [|c1 t1], t2 as [|c2 t2]; try done.
  rewrite (soundsResponse_search _ (String c1 t1)) by by apply truthy_Some.
  rewrite (soundsResponse_search _ (String c2 t2)) by by apply truthy_Some.
  by rewrite (filter_ext_matches _ _ sounds H).
Qed.

Lemma search_ignores_case_of_term_witness :
  soundsResponse (Some "bEAt") demo_catalog = soundsResponse (Some "Beat") demo_catalog.
Proof. apply (search_ignores_case_of_term demo_catalog "bEAt" "Beat"). reflexivity. Defined.

Lemma contains_ci_trans (s t2 t1 : string) :
  contains_ci s t2 -> contains_ci t2 t1 -> contains_ci s t1.
Proof.
  intros (a & b & Hs) (pre & post & Ht). exists (a +:+ pre), (post +:+ b).
  by rewrite Hs, Ht, !str_app_assoc.
Qed.

Lemma Matches_shorter (t1 t2 : string) (sound : Sound) :
  contains_ci t2 t1 -> Matches t2 sound -> Matches t1 sound.
Proof.
  intros Ht [H|(tag & Hin & H)].
  - left. by apply (contains_ci_trans _ t2).
  - right. exists tag. split; [done|]. by apply (contains_ci_trans _ t2).
Qed.

Lemma filter_shorter (t1 t2 : string) (sounds : list Sound) :
  contains_ci t2 t1 ->
  List.filter (matches t2) sounds `sublist_of` List.filter (matches t1) sounds.
Proof.
  intros Ht. induction sounds as [|s sounds IH]; simpl; [done|].
  destruct (matches t2 s) eqn:E2.
  - apply matches_spec, (Matches_shorter t1), matches_spec in E2; [|done].
    rewrite E2. by constructor.
  - destruct (matches t1 s); [by constructor | done].
Qed.

(** X3.  Shortening the search term never loses a result: when [t1] is a
    non-empty part of [t2], case ignored, and the search for [t2] finds the
    entries [found2], the search for [t1] answers 200 as well and finds
    all of [found2], in the same order. *)
Theorem shorter_term_finds_more (sounds found2 : list Sound) (t1 t2 : string) :
  t1 ≠ "" ->
  contains_ci t2 t1 ->
  soundsResponse (Some t2) sounds = c_json (JSounds found2) 200 ->
  exists found1,
    soundsResponse (Some t1) sounds = c_json (JSounds found1) 200 /\
    found2 `sublist_of` found1.
Proof.
  intros Ht1 Hsub H2.
  assert (t2 ≠ "") as Ht2.
  { intros ->. destruct Hsub as (pre & post & Hsub). simpl in Hsub.
    destruct pre; [|discriminate Hsub]. rewrite app_empty_l in Hsub.
    destruct (Js.toLowerCase t1) eqn:E; [|discriminate Hsub].
    by apply toLowerCase_empty in E. }
  apply (soundsResponse_200_inv _ _ _ Ht2) in H2 as [-> Hne].
  pose proof (filter_shorter t1 t2 sounds Hsub) as Hsl.
  exists (List.filter (matches t1) sounds). split; [|done].
  destruct (List.filter (matches t2) sounds) as [|s rest] eqn:E; [done|].
  apply (soundsResponse_found _ _ s Ht1).
  apply (elem_of_sublist _ _ s) in Hsl; [done|left].
Qed.

Lemma shorter_term_finds_more_witness :
  exists found1,
    soundsResponse (Some "b") demo_catalog = c_json (JSounds found1) 200 /\
    [ {| id := 1; name := "Cool Beat"; description := "Desc"; tags := ["A"; "B"; "C"];
         audio := "/audio/cool_beat.mp3"; cover := "/cover/cool_beat.jpg" |} ]
      `sublist_of` found1.
Proof.
  apply (shorter_term_finds_more demo_catalog _ "b" "Beat").
  - discriminate.
  - exists "", "eat". reflexivity.
  - reflexivity.
Defined.

Lemma contains_ci_refl (s : string) : contains_ci s s.
Proof. exists "", "". by rewrite app_empty_l, str_app_nil_r. Qed.

(** X4.  Every entry is found by its own name and by each of its own tags:
    searching a catalog for the name of one of its entries, or for one of that
    entry's tags (not the empty one), answers 200 with a list that holds the
    entry. *)
Theorem entry_found_by_own_name_or_tag (sounds : list Sound) (s : Sound) (term : string) :
  s ∈ sounds ->
  term ≠ "" ->
  term = name s \/ term ∈ tags s ->
  exists found,
    soundsResponse (Some term) sounds = c_json (JSounds found) 200 /\ s ∈ found.
Proof.
  intros Hin Hterm Hown.
  assert (s ∈ List.filter (matches term) sounds) as Hs.
  { apply filter_elem_of. split; [done|].
    destruct Hown as [->|Htag].
    - left. apply contains_ci_refl.
    - right. exists term. split; [done | apply contains_ci_refl]. }
  exists (List.filter (matches term) sounds).
  split; [by apply (soundsResponse_found _ _ s) | done].
Qed.

Lemma entry_found_by_own_name_or_tag_witness :
  exists found,
    soundsResponse (Some "B") demo_catalog = c_json (JSounds found) 200 /\
    {| id := 1; name := "Cool Beat"; description := "Desc"; tags := ["A"; "B"; "C"];
       audio := "/audio/cool_beat.mp3"; cover := "/cover/cool_beat.jpg" |} ∈ found.
Proof.
  apply (entry_found_by_own_name_or_tag demo_catalog _ "B").
  - apply list_elem_of_here.
  - discriminate.
  - right. apply list_elem_of_further, list_elem_of_here.
Defined.

Lemma catalog_ids (w w' : World) (l : list Sound) (k : nat) (s : Sound) :
  generateApi w = (Normal l, w') -> l !! k = Some s -> id s = Z.of_nat k + 1.
Proof.
  intros Hrun Hk.
  by destruct (generateApi_lookup _ _ _ _ _ Hrun Hk) as (? & ? & ? & ? & _ & _ & _ & ->).
Qed.

(** Filtering a list numbered from [n + 1] on leaves ids that grow. *)
Lemma filter_ids_increasing (f : Sound -> bool) (l : list Sound) (n : nat) :
  (forall k s, l !! k = Some s -> id s = Z.of_nat (n + k) + 1) ->
  (forall i s, List.filter f l !! i = Some s -> Z.of_nat n < id s) /\
  (forall i j si sj,
     List.filter f l !! i = Some si -> List.filter f l !! j = Some sj ->
     (i < j)%nat -> id si < id sj).
Proof.
  revert n. induction l as [|x l IH]; intros n Hid; [done|].
  assert (id x = Z.of_nat n + 1) as Hx.
  { rewrite (Hid 0%nat x) by done. by rewrite Nat.add_0_r. }
  destruct (IH (S n)) as [Hlow Hinc].
  { intros k s Hk. rewrite (Hid (S k) s) by done. by rewrite Nat.add_succ_r. }
  simpl. destruct (f x).
  - split.
    + intros [|i] s Hs; simpl in Hs.
      * injection Hs as <-. lia.
      * specialize (Hlow i s Hs). lia.
    + intros [|i] [|j] si sj Hi Hj Hlt; simpl in Hi, Hj; try lia.
      * injection Hi as <-. specialize (Hlow j sj Hj). lia.
      * apply (Hinc i j); [done..|lia].
  - split.
    + intros i s Hs. specialize (Hlow i s Hs). lia.
    + done.
Qed.

(** X5.  A search does not renumber: each entry of a 200 answer keeps the id
    it has in the whole catalog, which is its position there plus one, and
    the ids of the answer grow along it.  They need not start at 1 nor be
    contiguous. *)
Theorem search_keeps_catalog_ids (w w' : World) (l found : list Sound) (term : string) :
  generateApi w = (Normal l, w') ->
  term ≠ "" ->
  soundsResponse (Some term) l = c_json (JSounds found) 200 ->
  (forall i s, found !! i = Some s -> l !! Z.to_nat (id s - 1) = Some s) /\
  (forall i j si sj,
     found !! i = Some si -> found !! j = Some sj -> (i < j)%nat -> id si < id sj).
Proof.
  intros Hrun Hterm Hresp.
  apply (soundsResponse_200_inv _ _ _ Hterm) in Hresp as [-> _]. split.
  - intros i s Hs. apply list_elem_of_lookup_2, filter_elem_of in Hs as [Hin _].
    apply list_elem_of_lookup in Hin as [k Hk].
    rewrite (catalog_ids _ _ _ _ _ Hrun Hk).
    by replace (Z.to_nat (Z.of_nat k + 1 - 1)) with k by lia.
  - apply (filter_ids_increasing (matches term) l 0).
    intros k s Hk. by apply (catalog_ids _ _ _ _ _ Hrun Hk).
Qed.

Lemma search_keeps_catalog_ids_witness :
  (forall i s,
     [ {| id := 2; name := "A B_c"; description := "Only one line"; tags := [""];
          audio := "/audio/a_b_c.mp3"; cover := "/cover/a_b_c.jpg" |} ] !! i = Some s ->
     demo_catalog !! Z.to_nat (id s - 1) = Some s) /\
  (forall i j si sj,
     [ {| id := 2; name := "A B_c"; description := "Only one line"; tags := [""];
          audio := "/audio/a_b_c.mp3"; cover := "/cover/a_b_c.jpg" |} ] !! i = Some si ->
     [ {| id := 2; name := "A B_c"; description := "Only one line"; tags := [""];
          audio := "/audio/a_b_c.mp3"; cover := "/cover/a_b_c.jpg" |} ] !! j = Some sj ->
     (i < j)%nat -> id si < id sj).
Proof.
  apply (search_keeps_catalog_ids world_demo world_demo demo_catalog _ "b_c").
  - by vm_compute.
  - discriminate.
  - reflexivity.
Defined.

Lemma truthy_inv (search : option string) (term : string) :
  truthy search = Some term -> search = Some term /\ term ≠ "".
Proof.
  destruct search as [s|]; [|done]. simpl.
  destruct (String.eqb s "") eqn:E; [done|].
  intros H. injection H as <-. split; [done|].
  intros ->. discriminate E.
Qed.

(** X6.  [GET /sounds] never fails, whatever the world and the header: the
    builder returns a catalog [l] and the route answers either 200 with a
    list made of entries of [l] in catalog order, or 404 with
    [{error: "No sounds found"}].  It answers 404 only to a non-empty search
    term that no entry of [l] matches, and an empty list under 200 only when
    there is no search term (absent or empty header). *)
Theorem sounds_route_answers (w : World) (search : option string) :
  exists l r w',
    generateApi w = (Normal l, w') /\
    getSounds search w = (Normal r, w') /\
    ((exists found,
        r = c_json (JSounds found) 200 /\ found `sublist_of` l /\
        (found = [] -> truthy search = None)) \/
     (r = c_json (JError "No sounds found") 404 /\
      exists term, search = Some term /\ term ≠ "" /\
                   forall s, s ∈ l -> ~ Matches term s)).
Proof.
  destruct (generateApi_returns w) as (l & w' & Hrun & _).
  exists l, (soundsResponse search l), w'.
  split; [done|]. split; [by apply getSounds_run|].
  destruct (truthy search) as [term|] eqn:Ht.
  - rewrite (soundsResponse_search _ _ _ Ht).
    apply truthy_inv in Ht as [-> Hterm].
    destruct (List.filter (matches term) l) as [|s rest] eqn:E.
    + right. split; [done|]. exists term. split; [done|]. split; [done|].
      intros s Hin Hm.
      assert (s ∈ List.filter (matches term) l) as Hs by by apply filter_elem_of.
      rewrite E in Hs. by apply elem_of_nil in Hs.
    + left. exists (s :: rest). split; [done|]. split; [|done].
      rewrite <- E. apply filter_sublist.
  - left. exists l. by rewrite (soundsResponse_no_search _ _ Ht).
Qed.

(* ===================================================================== *)
(** ** More on the builder *)
(* ===================================================================== *)

Section MoreBuilderFacts.

Variable w : World.

Lemma for_of_enoent (fileName : string) (rest : list string) (sounds : list Sound) :
  is_mp3 fileName = true ->
  file_at w (descriptionPath fileName) = None ->
  for_of (fileName :: rest) sounds w = (Throw (ENOENT (descriptionPath fileName)), w).
Proof.
  unfold is_mp3. intros H Hf. simpl. rewrite H.
  unfold bind at 1, file_text. by rewrite Hf.
Qed.

Lemma for_of_typeerror (fileName text : string) (rest : list string) (sounds : list Sound) :
  is_mp3 fileName = true ->
  file_at w (descriptionPath fileName) = Some text ->
  lines text !! 1%nat = None ->
  for_of (fileName :: rest) sounds w = (Throw (TypeError "undefined is not an object"), w).
Proof.
  unfold is_mp3, lines. intros H Hf Hl. simpl. rewrite H.
  unfold bind at 1, file_text. rewrite Hf.
  unfold bind at 1. by rewrite Hl.
Qed.

Lemma for_of_malformed (fileName : string) (rest : list string) (sounds : list Sound) :
  is_mp3 fileName = true ->
  sidecar_malformed w fileName ->
  for_of (fileName :: rest) sounds w = (Throw (sidecar_error w fileName), w).
Proof.
  intros H [Hf|(text & Hf & Hl)]; unfold sidecar_error; rewrite Hf.
  - by apply for_of_enoent.
  - by apply (for_of_typeerror _ text).
Qed.

(** Names that do not end in [.mp3] are passed over. *)
Lemma for_of_audioFiles (listing : list string) (sounds : list Sound) :
  for_of listing sounds w = for_of (audioFiles listing) sounds w.
Proof.
  revert sounds. induction listing as [|f rest IH]; intros sounds; [done|].
  rewrite audioFiles_cons. destruct (is_mp3 f) eqn:Hmp3.
  - destruct (sidecar_cases w f) as [Hbad|(text & line & Hok)].
    + by rewrite !(for_of_malformed _ _ _ Hmp3 Hbad).
    + by rewrite !(for_of_push _ _ _ _ _ _ Hmp3 Hok).
  - by rewrite (for_of_skip _ _ _ _ Hmp3).
Qed.

Lemma audioFiles_is_mp3 (listing : list string) (f : string) :
  f ∈ audioFiles listing -> is_mp3 f = true.
Proof. intros H. by apply list_elem_of_In, filter_In in H as [_ H]. Qed.

(** The loop over audio files: those before the first malformed sidecar are
    pushed, then the loop throws. *)
Lemma for_of_first_malformed (pre post : list string) (f : string) (sounds : list Sound) :
  Forall (fun g => is_mp3 g = true) (pre ++ f :: post) ->
  Forall (fun g => ~ sidecar_malformed w g) pre ->
  sidecar_malformed w f ->
  for_of (pre ++ f :: post) sounds w = (Throw (sidecar_error w f), w).
Proof.
  revert sounds. induction pre as [|g pre IH]; intros sounds Hmp3 Hpre Hbad.
  - rewrite app_nil_l in Hmp3 |- *.
    apply Forall_cons in Hmp3 as [Hf _]. by apply for_of_malformed.
  - rewrite <- app_comm_cons in Hmp3 |- *.
    apply Forall_cons in Hmp3 as [Hg Hmp3]. apply Forall_cons in Hpre as [Hgok Hpre].
    destruct (sidecar_cases w g) as [Hgbad|(text & line & Hok)]; [done|].
    rewrite (for_of_push _ _ _ _ _ _ Hg Hok). by apply IH.
Qed.

End MoreBuilderFacts.

(** X7.  When a build fails on a sidecar, what is logged is the error of
    the first audio file, in listing order, whose sidecar is malformed: the
    rejected read of its description path when the file is missing, a
    [TypeError] when it has no second line.  Nothing else is logged and the
    catalog is empty, however many entries were built before. *)
Theorem first_malformed_sidecar_is_logged (w : World) (listing pre post : list string)
    (f : string) :
  dirs w !! dirPath = Some listing ->
  List.filter (fun g => Js.endsWith g ".mp3") listing = pre ++ f :: post ->
  Forall (fun g => ~ sidecar_malformed w g) pre ->
  sidecar_malformed w f ->
  generateApi w = (Normal [], logged (sidecar_error w f) w).
Proof.
  intros Hdir Hsplit Hpre Hbad. rewrite generateApi_unfold, Hdir.
  rewrite for_of_audioFiles. change (audioFiles listing) with
    (List.filter (fun g => Js.endsWith g ".mp3") listing).
  rewrite Hsplit, for_of_first_malformed; [done| |done..].
  rewrite <- Hsplit. apply Forall_forall. intros g Hg. by apply (audioFiles_is_mp3 listing).
Qed.

Lemma first_malformed_sidecar_is_logged_witness :
  generateApi world_lost_sidecar =
  (Normal [], logged (sidecar_error world_lost_sidecar "lost.mp3") world_lost_sidecar).
Proof.
  apply (first_malformed_sidecar_is_logged world_lost_sidecar
           ["cool_beat.mp3"; "lost.mp3"] ["cool_beat.mp3"] [] "lost.mp3").
  - by vm_compute.
  - by vm_compute.
  - apply Forall_cons. split; [|by apply Forall_nil].
    intros [H|(text & H & Hl)]; vm_compute in H; [discriminate H|].
    injection H as <-. vm_compute in Hl. discriminate Hl.
  - left. by vm_compute.
Defined.

(** The loop reads the sidecars of the names it is given, and no other file. *)
Lemma for_of_agree (w v : World) (fs : list string) (sounds : list Sound) :
  (forall f, f ∈ fs -> file_at w (descriptionPath f) = file_at v (descriptionPath f)) ->
  for_of fs sounds w = (fst (for_of fs sounds v), w).
Proof.
  revert sounds. induction fs as [|f rest IH]; intros sounds Hagree; [done|].
  assert (forall g, g ∈ rest ->
            file_at w (descriptionPath g) = file_at v (descriptionPath g)) as Hrest.
  { intros g Hg. apply Hagree. by apply list_elem_of_further. }
  simpl. destruct (Js.endsWith f ".mp3"); [|by apply IH].
  unfold bind at 1 3, file_text. rewrite (Hagree f) by apply list_elem_of_here.
  destruct (file_at v (descriptionPath f)) as [text|]; [|done].
  unfold bind at 1 2.
  destruct (Js.split text LF !! 1%nat) as [line|]; simpl; [by apply IH | done].
Qed.

(** X8.  The catalog is a function of the [.mp3] names of the listing and
    of their sidecars alone.  Two worlds whose listings have the same [.mp3]
    names in the same order, and which agree on the sidecar of each of them,
    build the same catalog: other names in the directory, the audio bytes,
    the covers and any other file play no part. *)
Theorem catalog_reads_audio_names_and_sidecars (w v : World) (lw lv : list string) :
  dirs w !! dirPath = Some lw ->
  dirs v !! dirPath = Some lv ->
  List.filter (fun f => Js.endsWith f ".mp3") lw =
    List.filter (fun f => Js.endsWith f ".mp3") lv ->
  (forall f, f ∈ List.filter (fun f => Js.endsWith f ".mp3") lw ->
             file_at w (descriptionPath f) = file_at v (descriptionPath f)) ->
  fst (generateApi w) = fst (generateApi v).
Proof.
  intros Hw Hv Hsame Hagree. rewrite !generateApi_unfold, Hw, Hv.
  rewrite (for_of_audioFiles w lw), (for_of_audioFiles v lv).
  change (audioFiles lw) with (List.filter (fun f => Js.endsWith f ".mp3") lw).
  change (audioFiles lv) with (List.filter (fun f => Js.endsWith f ".mp3") lv).
  rewrite <- Hsame, (for_of_agree w v _ _ Hagree).
  by destruct (for_of (List.filter (fun f => Js.endsWith f ".mp3") lw) [] v)
    as [[l|e] v'].
Qed.

Lemma catalog_reads_audio_names_and_sidecars_witness :
  fst (generateApi world_shelf) =
  fst (generateApi
         {| dirs := {[ dirPath := ["cool_beat.mp3"; "cover.jpg"] ]};
            files := {[ "./assets/description/cool_beat.txt" := sidecar_text +:+ String LF "" ]};
            console := [] |}).
Proof.
  apply (catalog_reads_audio_names_and_sidecars world_shelf _
           ["readme.md"; "cool_beat.mp3"] ["cool_beat.mp3"; "cover.jpg"]).
  - by vm_compute.
  - by vm_compute.
  - by vm_compute.
  - intros f Hf. vm_compute in Hf. apply list_elem_of_In in Hf.
    destruct Hf as [<-|[]]. by vm_compute.
Defined.

(** X9.  A missing music directory cannot be told from one without audio
    files by the answer of [GET /sounds]: under every header the two answers
    are equal.  Only the console differs, the failed enumeration is logged. *)
Theorem missing_directory_answers_as_empty (w1 w2 : World) (listing : list string)
    (search : option string) :
  dirs w1 !! dirPath = None ->
  dirs w2 !! dirPath = Some listing ->
  List.filter (fun f => Js.endsWith f ".mp3") listing = [] ->
  fst (getSounds search w1) = fst (getSounds search w2) /\
  snd (getSounds search w1) = logged (ENOENT dirPath) w1 /\
  snd (getSounds search w2) = w2.
Proof.
  intros H1 H2 Hnone.
  assert (generateApi w1 = (Normal [], logged (ENOENT dirPath) w1)) as Hrun1.
  { by rewrite generateApi_unfold, H1. }
  assert (generateApi w2 = (Normal [], w2)) as Hrun2.
  { rewrite generateApi_unfold, H2, for_of_audioFiles.
    change (audioFiles listing) with (List.filter (fun f => Js.endsWith f ".mp3") listing).
    by rewrite Hnone. }
  by rewrite (getSounds_run _ _ _ _ Hrun1), (getSounds_run _ _ _ _ Hrun2).
Qed.

Lemma missing_directory_answers_as_empty_witness :
  fst (getSounds (Some "beat") world_no_dir) = fst (getSounds (Some "beat") world_empty_dir) /\
  snd (getSounds (Some "beat") world_no_dir) = logged (ENOENT dirPath) world_no_dir /\
  snd (getSounds (Some "beat") world_empty_dir) = world_empty_dir.
Proof.
  apply (missing_directory_answers_as_empty world_no_dir world_empty_dir []).
  - by vm_compute.
  - by vm_compute.
  - reflexivity.
Defined.

Lemma Built_audio (w : World) (n : nat) (fs : list string) (es : list Sound) :
  Built w n fs es -> audio <$> es = (fun f => "/audio/" +:+ f) <$> fs.
Proof. induction 1 as [|n f text line fs es _ _ IH]; [done|]. by rewrite !fmap_cons, IH. Qed.

(** X10.  When every audio file of the listing has a sidecar with a second
    line, the build succeeds: the catalog has exactly one entry per audio
    file, their audio links are the audio names in listing order, and the
    world is left as it was, nothing being logged. *)
Theorem well_formed_sidecars_build (w : World) (listing : list string) :
  dirs w !! dirPath = Some listing ->
  Forall (fun f => ~ sidecar_malformed w f)
         (List.filter (fun f => Js.endsWith f ".mp3") listing) ->
  exists es,
    generateApi w = (Normal es, w) /\
    length es = length (List.filter (fun f => Js.endsWith f ".mp3") listing) /\
    audio <$> es =
      (fun f => "/audio/" +:+ f) <$> List.filter (fun f => Js.endsWith f ".mp3") listing.
Proof.
  intros Hdir Hall.
  destruct (build_completes w listing Hdir Hall) as (es & Hrun & Hes & Hlen).
  exists es. split; [done|]. split; [done|]. by apply (Built_audio w 0).
Qed.

Lemma well_formed_sidecars_build_witness :
  exists es,
    generateApi world_shelf = (Normal es, world_shelf) /\
    length es = length (List.filter (fun f => Js.endsWith f ".mp3") ["readme.md"; "cool_beat.mp3"]) /\
    audio <$> es =
      (fun f => "/audio/" +:+ f) <$>
        List.filter (fun f => Js.endsWith f ".mp3") ["readme.md"; "cool_beat.mp3"].
Proof.
  apply (well_formed_sidecars_build world_shelf ["readme.md"; "cool_beat.mp3"]).
  - by vm_compute.
  - apply Forall_cons. split; [|by apply Forall_nil].
    intros [H|(text & H & Hl)]; vm_compute in H; [discriminate H|].
    injection H as <-. vm_compute in Hl. discriminate Hl.
Defined.

(* ===================================================================== *)
(** ** Paths, sidecars and links *)
(* ===================================================================== *)

Lemma slice_app_length (s t : string) : Js.slice (s +:+ t) (String.length s) = t.
Proof. induction s as [|c s IH]; [by destruct t|]. by rewrite app_String. Qed.

(** A name made of a stem and [.mp3] is an audio file. *)
Lemma is_mp3_stem (stem : string) : is_mp3 (stem +:+ ".mp3") = true.
Proof.
  unfold is_mp3, Js.endsWith. rewrite str_app_length. simpl String.length.
  replace (String.length stem + 4 - 4)%nat with (String.length stem) by lia.
  rewrite slice_app_length. apply andb_true_intro. split; [|done].
  apply Nat.leb_le. lia.
Qed.

(** [.mp3] cannot begin inside a non-empty stem and end in the extension. *)
Lemma startsWith_mp3_app (c : ascii) (s : string) :
  Js.startsWith (String c s +:+ ".mp3") ".mp3" = Js.startsWith (String c s) ".mp3".
Proof.
  destruct s as [|c2 [|c3 [|c4 r]]]; rewrite ?app_String, ?app_empty_l;
    cbn [Js.startsWith];
    repeat match goal with
           | |- context [Ascii.eqb ?a ?b] => is_var b; destruct (Ascii.eqb a b)
           end;
    reflexivity.
Qed.

(** In a name whose stem has no [.mp3] in it, the first [.mp3] is the
    extension. *)
Lemma replace_extension (stem rep : string) :
  Js.includes stem ".mp3" = false ->
  Js.replace (stem +:+ ".mp3") ".mp3" rep = stem +:+ rep.
Proof.
  induction stem as [|c stem IH]; intros Hs.
  - rewrite !app_empty_l. cbn. by rewrite str_app_nil_r.
  - rewrite includes_unfold, orb_false_iff in Hs. destruct Hs as [Hc Hs].
    rewrite <- startsWith_mp3_app in Hc. rewrite !app_String in Hc |- *.
    cbn [Js.replace]. by rewrite Hc, (IH Hs).
Qed.

Example double_extension :
  descriptionPath "a.mp3.mp3" = "./assets/description/a.txt.mp3".
Proof. reflexivity. Qed.

Lemma audio_link_inj (f g : string) : "/audio/" +:+ f = "/audio/" +:+ g -> f = g.
Proof. intros H. by apply (inj (String.app "/audio/")) in H. Qed.

(** X11.  For an audio file [stem.mp3] whose stem has no [.mp3] inside, the
    entry is made from the sidecar [./assets/description/stem.txt]: the
    first line is its description, the second line split on ['-'] its tags,
    and its cover link is [/cover/stem.jpg], whether that cover exists or
    not. *)
Theorem entry_paths_follow_the_stem (w w' : World) (l : list Sound) (k : nat)
    (s : Sound) (stem : string) :
  generateApi w = (Normal l, w') ->
  l !! k = Some s ->
  audio s = "/audio/" +:+ stem +:+ ".mp3" ->
  Js.includes stem ".mp3" = false ->
  cover s = "/cover/" +:+ stem +:+ ".jpg" /\
  exists text line,
    file_at w ("./assets/description/" +:+ stem +:+ ".txt") = Some text /\
    Js.split text LF !! 0%nat = Some (description s) /\
    Js.split text LF !! 1%nat = Some line /\
    tags s = Js.split line "-"%char.
Proof.
  intros Hrun Hk Haudio Hstem.
  destruct (generateApi_lookup _ _ _ _ _ Hrun Hk)
    as (listing & f & text & line & _ & _ & [Ht Hl] & ->).
  simpl in Haudio. apply audio_link_inj in Haudio as ->.
  unfold descriptionPath in Ht. rewrite (replace_extension _ _ Hstem) in Ht.
  split.
  - simpl. by rewrite (replace_extension _ _ Hstem).
  - exists text, line. split; [done|]. split; [|done].
    simpl. unfold lines. by destruct (split_cons text LF) as (d & ds & ->).
Qed.

Lemma entry_paths_follow_the_stem_witness :
  cover {| id := 1; name := "Cool Beat"; description := "Desc"; tags := ["A"; "B"; "C"];
           audio := "/audio/cool_beat.mp3"; cover := "/cover/cool_beat.jpg" |}
    = "/cover/" +:+ "cool_beat" +:+ ".jpg" /\
  exists text line,
    file_at world_demo ("./assets/description/" +:+ "cool_beat" +:+ ".txt") = Some text /\
    Js.split text LF !! 0%nat =
      Some (description
              {| id := 1; name := "Cool Beat"; description := "Desc"; tags := ["A"; "B"; "C"];
                 audio := "/audio/cool_beat.mp3"; cover := "/cover/cool_beat.jpg" |}) /\
    Js.split text LF !! 1%nat = Some line /\
    tags {| id := 1; name := "Cool Beat"; description := "Desc"; tags := ["A"; "B"; "C"];
            audio := "/audio/cool_beat.mp3"; cover := "/cover/cool_beat.jpg" |}
      = Js.split line "-"%char.
Proof.
  apply (entry_paths_follow_the_stem world_demo world_demo demo_catalog 0%nat _ "cool_beat").
  - by vm_compute.
  - reflexivity.
  - reflexivity.
  - reflexivity.
Defined.

Lemma includes_char_app (a b : string) (c : ascii) :
  Js.includes (a +:+ b) (String c "") =
  Js.includes a (String c "") || Js.includes b (String c "").
Proof.
  induction a as [|x a IH]; [done|].
  rewrite app_String, !(includes_unfold (String x _)), IH.
  cbn [Js.startsWith]. by rewrite orb_assoc.
Qed.

Lemma join_without_char (ws : list string) (sep : string) (c : ascii) :
  Js.includes sep (String c "") = false ->
  Forall (fun t => Js.includes t (String c "") = false) ws ->
  Js.includes (Js.join ws sep) (String c "") = false.
Proof.
  intros Hsep. induction ws as [|t ws IH]; intros Hall; [done|].
  apply Forall_cons in Hall as [Ht Hall].
  destruct ws as [|t' ws]; [done|].
  rewrite join_cons by done.
  by rewrite !includes_char_app, Ht, Hsep, (IH Hall).
Qed.

(** X12.  Writing a sidecar and building reads it back.  Let the sidecar of
    the audio file of an entry be a description without line break, a line
    break, and one or more tags joined by ['-'], none of them holding a
    ['-'] or a line break; nothing, or further lines, may follow.  Then the
    entry has that description and those tags, in order. *)
Theorem sidecar_round_trip (w w' : World) (l : list Sound) (k : nat) (s : Sound)
    (f desc : string) (tgs : list string) (trailer : string) :
  generateApi w = (Normal l, w') ->
  l !! k = Some s ->
  audio s = "/audio/" +:+ f ->
  file_at w (descriptionPath f) = Some (desc +:+ String LF (Js.join tgs "-" +:+ trailer)) ->
  Js.includes desc (String LF "") = false ->
  tgs ≠ [] ->
  Forall (fun t => Js.includes t "-" = false) tgs ->
  Forall (fun t => Js.includes t (String LF "") = false) tgs ->
  trailer = "" \/ (exists more, trailer = String LF more) ->
  description s = desc /\ tags s = tgs.
Proof.
  intros Hrun Hk Haudio Hfile Hdesc Hne Hdash Hlf Htrailer.
  destruct (generateApi_lookup _ _ _ _ _ Hrun Hk)
    as (listing & f' & text & line & _ & _ & [Ht Hl] & ->).
  simpl in Haudio. apply audio_link_inj in Haudio as ->.
  rewrite Hfile in Ht. injection Ht as <-.
  assert (Js.includes (Js.join tgs "-") (String LF "") = false) as Hjoin.
  { by apply join_without_char. }
  assert (lines (desc +:+ String LF (Js.join tgs "-" +:+ trailer)) !! 1%nat
          = Some (Js.join tgs "-")) as Hline.
  { unfold lines. rewrite (split_app _ _ _ Hdesc). simpl.
    destruct Htrailer as [->|[more ->]].
    - by rewrite str_app_nil_r, (split_no_sep _ _ Hjoin).
    - by rewrite (split_app _ _ _ Hjoin). }
  rewrite Hline in Hl. injection Hl as <-. simpl. split.
  - unfold lines. by rewrite (split_app _ _ _ Hdesc).
  - by apply (split_join tgs "-"%char).
Qed.

Lemma sidecar_round_trip_witness :
  description {| id := 1; name := "Cool Beat"; description := "Desc"; tags := ["A"; "B"; "C"];
                 audio := "/audio/cool_beat.mp3"; cover := "/cover/cool_beat.jpg" |} = "Desc" /\
  tags {| id := 1; name := "Cool Beat"; description := "Desc"; tags := ["A"; "B"; "C"];
          audio := "/audio/cool_beat.mp3"; cover := "/cover/cool_beat.jpg" |} = ["A"; "B"; "C"].
Proof.
  apply (sidecar_round_trip world_shelf world_shelf
           [ {| id := 1; name := "Cool Beat"; description := "Desc"; tags := ["A"; "B"; "C"];
                audio := "/audio/cool_beat.mp3"; cover := "/cover/cool_beat.jpg" |} ]
           0%nat _ "cool_beat.mp3" "Desc" ["A"; "B"; "C"] (String LF "")).
  - by vm_compute.
  - reflexivity.
  - reflexivity.
  - by vm_compute.
  - reflexivity.
  - discriminate.
  - repeat (apply Forall_cons; split; [reflexivity|]). by apply Forall_nil.
  - repeat (apply Forall_cons; split; [reflexivity|]). by apply Forall_nil.
  - right. by exists "".
Defined.

Lemma generateApi_files (w w' : World) (l : list Sound) (path : string) :
  generateApi w = (Normal l, w') -> file_at w' path = file_at w path.
Proof.
  intros Hrun. destruct (generateApi_returns w) as (l0 & w0 & H & Hdirs & Hfiles).
  rewrite Hrun in H. injection H as <- <-. by apply file_at_ext.
Qed.

(** X13.  The audio links of a catalog lead to the download route.  When
    every audio file of the listing is a file of the music directory, each
    entry's audio link is [/audio/] followed by a name for which
    [GET /audio/{name}], asked after the build, answers 200 with the bytes of
    that file and [Content-Type: audio/mpeg]. *)
Theorem audio_links_resolve (w w' : World) (l : list Sound) (s : Sound) :
  generateApi w = (Normal l, w') ->
  (forall listing f,
     dirs w !! dirPath = Some listing -> f ∈ listing -> Js.endsWith f ".mp3" = true ->
     is_Some (file_at w (dirPath +:+ "/" +:+ f))) ->
  s ∈ l ->
  exists f bytes,
    audio s = "/audio/" +:+ f /\
    file_at w (dirPath +:+ "/" +:+ f) = Some bytes /\
    getAudio f w' =
      (Normal {| status := 200; headers := [("Content-Type", "audio/mpeg")];
                 body := StreamBody bytes |}, w').
Proof.
  intros Hrun Hshelf Hin.
  apply list_elem_of_lookup in Hin as [k Hk].
  destruct (generateApi_lookup _ _ _ _ _ Hrun Hk)
    as (listing & f & text & line & Hdir & Hf & _ & ->).
  apply list_elem_of_lookup_2, list_elem_of_In, filter_In in Hf as [Hf Hmp3].
  destruct (Hshelf listing f Hdir) as [bytes Hbytes]; [by apply list_elem_of_In|done|].
  exists f, bytes. split; [done|]. split; [done|].
  rewrite getAudio_run, (generateApi_files _ _ _ _ Hrun).
  change ("./assets/music/" +:+ f) with (dirPath +:+ "/" +:+ f).
  by rewrite Hbytes.
Qed.

Lemma audio_links_resolve_witness :
  exists f bytes,
    audio {| id := 1; name := "Cool Beat"; description := "Desc"; tags := ["A"; "B"; "C"];
             audio := "/audio/cool_beat.mp3"; cover := "/cover/cool_beat.jpg" |}
      = "/audio/" +:+ f /\
    file_at world_shelf (dirPath +:+ "/" +:+ f) = Some bytes /\
    getAudio f world_shelf =
      (Normal {| status := 200; headers := [("Content-Type", "audio/mpeg")];
                 body := StreamBody bytes |}, world_shelf).
Proof.
  apply (audio_links_resolve world_shelf world_shelf
           [ {| id := 1; name := "Cool Beat"; description := "Desc"; tags := ["A"; "B"; "C"];
                audio := "/audio/cool_beat.mp3"; cover := "/cover/cool_beat.jpg" |} ]).
  - by vm_compute.
  - intros listing f Hdir Hin Hmp3. vm_compute in Hdir. injection Hdir as <-.
    apply list_elem_of_In in Hin. destruct Hin as [<-|[<-|[]]].
    + vm_compute in Hmp3. discriminate Hmp3.
    + exists "ID3". by vm_compute.
  - apply list_elem_of_here.
Defined.

(* ===================================================================== *)
(** ** The API document and the answers of the routes *)
(* ===================================================================== *)

Lemma soundsResponse_cases (search : option string) (sounds : list Sound) :
  (exists found, soundsResponse search sounds = c_json (JSounds found) 200) \/
  soundsResponse search sounds = c_json (JError "No sounds found") 404.
Proof.
  destruct (truthy search) as [term|] eqn:Ht.
  - rewrite (soundsResponse_search _ _ _ Ht).
    destruct (List.filter (matches term) sounds) as [|s rest]; [by right|].
    left. by exists (s :: rest).
  - left. exists sounds. by apply soundsResponse_no_search.
Qed.

(** X14.  Every answer of [GET /sounds] is one the API document describes
    for [/sounds]: its status is listed there, a list of sounds comes under
    the status documented with a JSON array of [Sound], and the error text
    of a 404 is the description the document gives for 404. *)
Theorem sounds_answers_are_documented (w : World) (search : option string) :
  exists r w', getSounds search w = (Normal r, w') /\ documented "/sounds" r.
Proof.
  destruct (generateApi_returns w) as (l & w' & Hrun & _).
  exists (soundsResponse search l), w'. split; [by apply getSounds_run|].
  destruct (soundsResponse_cases search l) as [[found ->]| ->];
    (eexists; split; [by vm_compute | by vm_compute]).
Qed.

(** X15.  Every answer of the two download routes is one the API document
    describes for its route: 200 with a [Content-Type] the document lists as
    the content of a 200 ([audio/mpeg], [image/jpeg]), or 404 with the text
    the document gives as the description of a 404. *)
Theorem download_answers_are_documented (w : World) (fileName : string) :
  (exists r, getAudio fileName w = (Normal r, w) /\ documented "/audio/{fileName}" r) /\
  (exists r, getCover fileName w = (Normal r, w) /\ documented "/cover/{fileName}" r).
Proof.
  split.
  - rewrite getAudio_run. eexists. split; [done|].
    destruct (file_at w ("./assets/music/" +:+ fileName)) as [bytes|].
    + eexists. split; [by vm_compute|]. exists "audio/mpeg". split; [done|].
      eexists. by vm_compute.
    + eexists. split; [by vm_compute | by vm_compute].
  - rewrite getCover_run. eexists. split; [done|].
    destruct (file_at w ("./assets/cover/" +:+ fileName)) as [bytes|].
    + eexists. split; [by vm_compute|]. exists "image/jpeg". split; [done|].
      eexists. by vm_compute.
    + eexists. split; [by vm_compute | by vm_compute].
Qed.

(** X16.  What [GET /sounds] writes fits the schemas of the API document.
    An entry has exactly the properties the document lists for [Sound], in
    its order and of its types: [id] an integer, [tags] an array of strings,
    the others strings.  The error body has exactly the property [error], a
    string, as the schema of the 404 of [/sounds] says. *)
Theorem bodies_fit_documented_schemas :
  (exists props,
     Doc.at_path ["components"; "schemas"; "Sound"; "properties"] openApiSpec = Some props /\
     forall s, fits props (soundJson s)) /\
  (exists props,
     Doc.at_path ["paths"; "/sounds"; "get"; "responses"; "404"; "content";
                  "application/json"; "schema"; "properties"] openApiSpec = Some props /\
     forall msg, fits props (jsonValue (JError msg))).
Proof.
  split.
  - eexists. split; [by vm_compute|]. intros s. split; [reflexivity|].
    intros key x Hget. unfold Doc.get, soundJson in Hget. cbn [List.find fst] in Hget.
    repeat match type of Hget with
           | context [String.eqb ?a key] =>
               destruct (String.eqb_spec a key) as [<-|_]
           end;
      simpl in Hget; try discriminate Hget; injection Hget as <-;
      (split; [reflexivity|]); intros items item Hx Hin; try discriminate Hx.
    injection Hx as <-. apply list_elem_of_In, in_map_iff in Hin as (t & <- & _).
    reflexivity.
  - eexists. split; [by vm_compute|]. intros msg. split; [reflexivity|].
    intros key x Hget. unfold Doc.get, jsonValue in Hget. cbn [List.find fst] in Hget.
    destruct (String.eqb_spec "error" key) as [<-|_];
      simpl in Hget; try discriminate Hget; injection Hget as <-.
    split; [reflexivity|]. intros items item Hx. discriminate Hx.
Qed.
